(** * Report: the ordered, merging record of [mmf/common/report.py]

    A shallow embedding of the class [Report(OrderedDict)] and the
    properties stated about it.

    Conventions of the embedding.
    - A Report is its backing store, an insertion-ordered association list
      with unique string keys ([odict]); the class overrides [__setattr__],
      so the instance carries no other state.
    - Mutable containers reachable from a field (lists, dicts and other
      mappings) live in a [heap] and are named by [VRef]: two fields may
      hold the same list, and an in-place update is seen through both.
      Tensors are kept by value: the identity of a tensor object, and so
      the sharing of one tensor between two holders, is not tracked.
    - Exceptions are results ([Raise]); warnings are appended to a log
      threaded through the monad [M].
    - [Unmodelled] is not a Python outcome: it marks an input on which the
      embedding makes no statement (a key that is not a string, a format
      field with a name, an integer beyond 64 bits added to a tensor).
    - The code targets Python 3.6 to 3.9: [collections.MutableSequence] is
      the alias of [collections.abc.MutableSequence] removed in 3.10. *)

From Stdlib Require Import ZArith String Ascii List Lia.
From Stdlib Require Import Floats.SpecFloat.
From stdpp Require Import base list strings.

(** ** Values *)

(** Locations are indices into the heap. *)
Abbreviation loc := nat (only parsing).

(** A tensor in row-major layout; elements are binary32 numbers. *)
Record tensor := Tensor { shape : list nat; data : list spec_float }.

#[warnings="-register-all"]
Inductive value :=
| VNone
| VInt (n : Z)
| VFloat (x : spec_float)          (* a Python float, binary64 *)
| VStr (s : string)
| VTensor (t : tensor)
| VTuple (items : list value)
| VAttr (name : string)            (* what a class-level attribute of Report
                                      evaluates to: a bound method *)
| VRef (l : loc).

(** An insertion-ordered mapping with string keys. *)
Definition odict := list (string * value).

(** A mapping object other than the Report under study: its items in
    iteration order, whether its class derives from [dict], and what its
    [get_batch_size()] returns when the class has that method. *)
Record mapping := Mapping {
  entries : odict;
  is_dict : bool;
  batch_size_of : option value
}.

Inductive object :=
| OList (items : list value)       (* a list, the mutable sequence of the
                                      embedding *)
| OMapping (m : mapping)
| OOther.                          (* an object of any other class, neither
                                      a sequence nor a mapping: a set *)

Abbreviation heap := (list object) (only parsing).

(** ** Exceptions, results and the warning log *)

Inductive exn :=
| TypeError
| ArgTypeError (idx : nat)         (* the TypeError of [__init__], naming
                                      the positional index *)
| KeyError (key : string)
| AttributeError (name : string)
| IndexError
| ValueError
| RuntimeError.

Inductive result (A : Type) :=
| Ok (a : A)
| Raise (e : exn)
| Unmodelled.
Arguments Ok {A} a.
Arguments Raise {A} e.
Arguments Unmodelled {A}.

Definition rbind {A B} (r : result A) (f : A -> result B) : result B :=
  match r with
  | Ok a => f a
  | Raise e => Raise e
  | Unmodelled => Unmodelled
  end.

(** Computations that may warn and may raise: the log of the warnings
    passed to [warnings.warn] so far is threaded through. *)
Definition M (A : Type) : Type := list string -> result A * list string.

Definition ret {A} (a : A) : M A := fun w => (Ok a, w).

Definition bind {A B} (m : M A) (f : A -> M B) : M B :=
  fun w =>
    match m w with
    | (Ok a, w') => f a w'
    | (Raise e, w') => (Raise e, w')
    | (Unmodelled, w') => (Unmodelled, w')
    end.

Definition lift {A} (r : result A) : M A := fun w => (r, w).

Definition warn (msg : string) : M unit := fun w => (Ok tt, w ++ [msg]).

Definition run {A} (m : M A) : result A * list string := m [].

Notation "'let*' x := m 'in' k" := (bind m (fun x => k))
  (at level 10, x pattern, m at level 100, k at level 200).
Notation "'let?' x := r 'in' k" := (rbind r (fun x => k))
  (at level 10, x pattern, r at level 100, k at level 200).

Fixpoint foldM {A B} (f : A -> B -> M A) (l : list B) (a : A) : M A :=
  match l with
  | [] => ret a
  | b :: l' => bind (f a b) (foldM f l')
  end.

(** ** The backing store: [OrderedDict] operations *)

Fixpoint getitem (d : odict) (key : string) : option value :=
  match d with
  | [] => None
  | (k, v) :: d' => if String.eqb k key then Some v else getitem d' key
  end.

(** [d[key] = v]: an existing key keeps its position, a new key goes last. *)
Fixpoint setitem (d : odict) (key : string) (v : value) : odict :=
  match d with
  | [] => [(key, v)]
  | (k, x) :: d' =>
      if String.eqb k key then (k, v) :: d' else (k, x) :: setitem d' key v
  end.

Definition keys (d : odict) : list string := fst <$> d.

(** [key in d] *)
Definition contains (d : odict) (key : string) : bool :=
  existsb (String.eqb key) (keys d).

(** [self[key]] *)
Definition __getitem__ (self : odict) (key : string) : result value :=
  match getitem self key with
  | Some v => Ok v
  | None => Raise (KeyError key)
  end.

(** ** Attribute access on a Report *)

Definition __setattr__ (self : odict) (key : string) (v : value) : odict :=
  setitem self key v.

Definition __getattr__ (self : odict) (key : string) : result value :=
  match __getitem__ self key with
  | Raise (KeyError _) => Raise (AttributeError key)
  | r => r
  end.

(** The names bound in the body of [class Report], the property
    [batch_size] apart. *)
Definition report_methods : list string :=
  ["__init__"; "get_batch_size"; "_check_and_load_tuple"; "__setattr__";
   "__getattr__"; "fields"; "apply_fn"; "detach"; "to";
   "accumulate_tensor_fields_and_loss"; "_accumulate_loss"; "copy"].

(** The names a Report inherits from [OrderedDict], [dict] and [object]
    in some version of CPython from 3.6 to 3.9, and those every class
    defined in Python has.  [OrderedDict] is weakly referenceable itself,
    so the subclass gets no [__weakref__]. *)
Definition inherited_attrs : list string :=
  ["clear"; "copy"; "fromkeys"; "get"; "items"; "keys"; "move_to_end";
   "pop"; "popitem"; "setdefault"; "update"; "values";
   "__class__"; "__class_getitem__"; "__contains__"; "__delattr__";
   "__delitem__"; "__dict__"; "__dir__"; "__doc__"; "__eq__"; "__format__";
   "__ge__"; "__getattribute__"; "__getitem__"; "__gt__"; "__hash__";
   "__init_subclass__"; "__ior__"; "__iter__"; "__le__"; "__len__";
   "__lt__"; "__module__"; "__ne__"; "__new__"; "__or__"; "__reduce__";
   "__reduce_ex__"; "__repr__"; "__reversed__"; "__ror__"; "__setitem__";
   "__sizeof__"; "__str__"; "__subclasshook__"].

Definition is_class_attr (name : string) : bool :=
  existsb (String.eqb name) (report_methods ++ inherited_attrs).

(** [self.name] for a name that is not a property: the class is searched
    first, [__getattr__] is the fallback. *)
Definition plain_attr (self : odict) (name : string) : result value :=
  if is_class_attr name then Ok (VAttr name) else __getattr__ self name.

(** The getter of the property [batch_size]: [return self._batch_size]. *)
Definition batch_size (self : odict) : result value :=
  plain_attr self "_batch_size".

(** The expression [self.name].  The property is a class attribute; when
    its getter raises [AttributeError], Python falls back to
    [__getattr__] with the property's own name. *)
Definition getattr (self : odict) (name : string) : result value :=
  if String.eqb name "batch_size" then
    match batch_size self with
    | Raise (AttributeError _) => __getattr__ self name
    | r => r
    end
  else plain_attr self name.

(** The statement [self.name = v]: the class overrides [__setattr__], which
    Python calls for every name, the property's included; the setter of
    [batch_size] is never reached. *)
Definition setattr (self : odict) (name : string) (v : value) : odict :=
  __setattr__ self name v.

Definition get_batch_size (self : odict) : result value :=
  getattr self "batch_size".

Definition fields (self : odict) : list string := keys self.

(** ** Strings, subscripts and type tests *)

(** [s.format( *args )] for templates whose replacement fields are all the
    automatic [{}]; doubled braces are literal braces. *)
Fixpoint py_format (s : string) (args : list string) : result string :=
  match s with
  | EmptyString => Ok EmptyString
  | String c rest =>
      if Ascii.eqb c "{" then
        match rest with
        | EmptyString => Raise ValueError
        | String c' rest' =>
            if Ascii.eqb c' "}" then
              match args with
              | [] => Raise IndexError
              | a :: args' =>
                  let? r := py_format rest' args' in Ok (String.append a r)
              end
            else if Ascii.eqb c' "{" then
              let? r := py_format rest' args in Ok (String "{" r)
            else Unmodelled
        end
      else if Ascii.eqb c "}" then
        match rest with
        | EmptyString => Raise ValueError
        | String c' rest' =>
            if Ascii.eqb c' "}" then
              let? r := py_format rest' args in Ok (String "}" r)
            else Raise ValueError
        end
      else let? r := py_format rest args in Ok (String c r)
  end.

(** [v.format( *args )]: only strings have the method among the modelled
    classes. *)
Definition format_value (h : heap) (v : value) (args : list string)
  : result string :=
  match v with
  | VStr s => py_format s args
  | VRef l =>
      match h !! l with
      | Some (OList _) => Raise (AttributeError "format")
      | _ => Unmodelled
      end
  | _ => Raise (AttributeError "format")
  end.

Definition numel (sh : list nat) : nat := foldr Nat.mul 1 sh.

(** [t[i]]: the [i]-th slice along the leading axis. *)
Definition tensor_getitem (t : tensor) (i : nat) : result tensor :=
  match shape t with
  | [] => Raise IndexError
  | n :: tl =>
      if (i <? n)%nat
      then Ok (Tensor tl (take (numel tl) (drop (i * numel tl) (data t))))
      else Raise IndexError
  end.

(** [v[i]] for an index [i >= 0]. *)
Definition subscript (h : heap) (v : value) (i : nat) : result value :=
  match v with
  | VTuple items =>
      match items !! i with Some x => Ok x | None => Raise IndexError end
  | VStr s =>
      match String.get i s with
      | Some c => Ok (VStr (String c EmptyString))
      | None => Raise IndexError
      end
  | VTensor t => let? r := tensor_getitem t i in Ok (VTensor r)
  | VRef l =>
      match h !! l with
      | Some (OList items) =>
          match items !! i with Some x => Ok x | None => Raise IndexError end
      | _ => Unmodelled
      end
  | VNone | VInt _ | VFloat _ | VAttr _ => Raise TypeError
  end.

Definition as_mapping (h : heap) (v : value) : option mapping :=
  match v with
  | VRef l => match h !! l with Some (OMapping m) => Some m | _ => None end
  | _ => None
  end.

(** [isinstance(v, collections.abc.Mapping)] *)
Definition is_mapping (h : heap) (v : value) : bool :=
  match as_mapping h v with Some _ => true | None => false end.

(** [isinstance(v, (tuple, list))] *)
Definition is_tuple_or_list (h : heap) (v : value) : bool :=
  match v with
  | VTuple _ => true
  | VRef l => match h !! l with Some (OList _) => true | _ => false end
  | _ => false
  end.

(** [isinstance(v, str)] *)
Definition is_str (v : value) : bool :=
  match v with VStr _ => true | _ => false end.

(** [isinstance(v, torch.Tensor)] *)
Definition is_tensor (v : value) : bool :=
  match v with VTensor _ => true | _ => false end.

(** The elements [for x in v] visits, for a tuple or a list. *)
Definition iterate (h : heap) (v : value) : result (list value) :=
  match v with
  | VTuple items => Ok items
  | VRef l =>
      match h !! l with Some (OList items) => Ok items | _ => Unmodelled end
  | VStr _ | VTensor _ => Unmodelled
  | VNone | VInt _ | VFloat _ | VAttr _ => Raise TypeError
  end.

(** The store is keyed by strings only. *)
Definition as_key (v : value) : result string :=
  match v with VStr s => Ok s | _ => Unmodelled end.

Fixpoint foldR {A B} (f : A -> B -> result A) (l : list B) (a : A)
  : result A :=
  match l with
  | [] => Ok a
  | b :: l' => rbind (f a b) (foldR f l')
  end.

Fixpoint enumerate_from {A} (n : nat) (l : list A) : list (nat * A) :=
  match l with
  | [] => []
  | x :: l' => (n, x) :: enumerate_from (S n) l'
  end.

Definition enumerate {A} (l : list A) : list (nat * A) := enumerate_from 0 l.

(** ** Construction *)

(** The body of the loop of [_check_and_load_tuple]:
    [self[kv_pair[0]] = kv_pair[1]], right-hand side first. *)
Definition load_pair (h : heap) (self : odict) (kv_pair : value)
  : result odict :=
  let? item := subscript h kv_pair 1 in
  let? k := subscript h kv_pair 0 in
  let? key := as_key k in
  Ok (setitem self key item).

Definition _check_and_load_tuple (h : heap) (self : odict) (batch : value)
  : result (bool * odict) :=
  if is_mapping h batch then Ok (false, self)
  else
    let? first := subscript h batch 0 in
    if is_tuple_or_list h first then
      let? k := subscript h first 0 in
      if is_str k then
        let? kv_pairs := iterate h batch in
        let? self := foldR (load_pair h) kv_pairs self in
        Ok (true, self)
      else Ok (false, self)
    else Ok (false, self).

Definition warning_template : string :=
  "Updating forward report with key {}{}, but it already exists in {}. Please consider using a different key, as this can cause issues during loss and metric calculations.".

(** The first loop over [all_args]: every argument must be a Mapping. *)
Definition check_mappings (h : heap) (all_args : list value) : result unit :=
  foldR (fun _ (ia : nat * value) =>
           if is_mapping h ia.2 then Ok tt else Raise (ArgTypeError ia.1))
        (enumerate all_args) tt.

(** [batch.get_batch_size()] *)
Definition call_get_batch_size (h : heap) (batch : value) : result value :=
  match as_mapping h batch with
  | Some m =>
      match batch_size_of m with
      | Some v => Ok v
      | None => Raise (AttributeError "get_batch_size")
      end
  | None => Unmodelled
  end.

(** [arg.items()] *)
Definition items_of (h : heap) (arg : value) : result odict :=
  match as_mapping h arg with
  | Some m => Ok (entries m)
  | None => Unmodelled
  end.

(** The body of the inner merge loop. *)
Definition merge_item (h : heap) (idx : nat) (self : odict)
  (kv : string * value) : M odict :=
  let* _ :=
    (if contains self kv.1 && (2 <=? idx)%nat then
       let* ws := lift (getattr self "warning_string") in
       let* log := lift (format_value h ws
                           [kv.1; ""; "in previous arguments to report"]) in
       warn log
     else ret tt) in
  ret (setitem self kv.1 kv.2).

Definition merge_arg (h : heap) (self : odict) (ia : nat * value) : M odict :=
  let* its := lift (items_of h ia.2) in
  foldM (merge_item h ia.1) its self.

Definition empty_dict : mapping := Mapping [] true None.

(** [Report(batch, model_output, *args)]; an omitted [batch] or
    [model_output] is [VNone].  The result is the store of the new Report. *)
Definition __init__ (h : heap) (batch model_output : value)
  (args : list value) : M odict :=
  let self : odict := [] in
  match batch with
  | VNone => ret self
  | _ =>
      let (h, model_output) :=
        match model_output with
        | VNone => (h ++ [OMapping empty_dict], VRef (length h))
        | _ => (h, model_output)
        end in
      let* (loaded, self) := lift (_check_and_load_tuple h self batch) in
      if (loaded : bool) then ret self
      else
        let all_args := [batch; model_output] ++ args in
        let* _ := lift (check_mappings h all_args) in
        let* bs := lift (call_get_batch_size h batch) in
        let self := setattr self "batch_size" bs in
        let self := setattr self "warning_string" (VStr warning_template) in
        foldM (merge_arg h) (enumerate all_args) self
  end.

(** ** Transform application *)

(** [key == x] for an element [x] of [fields]: only an equal string is
    equal to a key. *)
Definition eq_key (key : string) (x : value) : bool :=
  match x with VStr s => String.eqb key s | _ => false end.

(** The elements of [v] when [isinstance(v, (list, tuple))]. *)
Definition list_or_tuple_items (h : heap) (v : value) : option (list value) :=
  match v with
  | VTuple items => Some items
  | VRef l =>
      match h !! l with Some (OList items) => Some items | _ => None end
  | _ => None
  end.

(** The guard of [apply_fn]:
    [fields is not None and isinstance(fields, (list, tuple))] and then
    [key not in fields]. *)
Definition skipped (h : heap) (fields : value) (key : string) : bool :=
  match list_or_tuple_items h fields with
  | Some items => negb (existsb (eq_key key) items)
  | None => false
  end.

(** [self[key][idx] = fn(item)], on the list object at [l]. *)
Definition list_step (fn : value -> value) (l : loc) (h : heap) (idx : nat)
  : heap :=
  match h !! l with
  | Some (OList items) =>
      match items !! idx with
      | Some item => <[l := OList (<[idx := fn item]> items)]> h
      | None => h
      end
  | _ => h
  end.

(** [self[key][subkey] = fn(self[key][subkey])], on the dict at [l]. *)
Definition dict_step (fn : value -> value) (l : loc) (h : heap)
  (subkey : string) : heap :=
  match h !! l with
  | Some (OMapping m) =>
      match getitem (entries m) subkey with
      | Some x =>
          <[l := OMapping (Mapping (setitem (entries m) subkey (fn x))
                                   (is_dict m) (batch_size_of m))]> h
      | None => h
      end
  | _ => h
  end.

(** The body of the loop of [apply_fn] for one key.  [fn] is a pure
    function of the value it is given: it sees a container as a reference
    and neither reads nor writes the heap. *)
Definition apply_fn_key (fn : value -> value) (fields : value)
  (st : odict * heap) (key : string) : odict * heap :=
  let (self, h) := st in
  if skipped h fields key then st
  else
    match getitem self key with
    | None => st
    | Some v =>
        let self := setitem self key (fn v) in
        match getitem self key with
        | Some (VRef l) =>
            match h !! l with
            | Some (OList items) =>
                (self, foldl (list_step fn l) h (seq 0 (length items)))
            | Some (OMapping m) =>
                if is_dict m
                then (self, foldl (dict_step fn l) h (keys (entries m)))
                else (self, h)
            | _ => (self, h)
            end
        | _ => (self, h)
        end
    end.

(** [self.apply_fn(fn, fields)]; an omitted [fields] is [VNone].  The
    Report returned is [self], whose store is the first component. *)
Definition apply_fn (fn : value -> value) (fields : value)
  (self : odict) (h : heap) : odict * heap :=
  foldl (apply_fn_key fn fields) (self, h) (keys self).

(** ** Tensors: what the code uses of PyTorch *)

Definition f32_add : spec_float -> spec_float -> spec_float := SFadd 24 128.

Definition f32_of_f64 (x : spec_float) : spec_float :=
  match x with
  | S754_finite s m e => binary_normalize 24 128 (cond_Zopp s (Zpos m)) e s
  | _ => x
  end.

Definition f32_of_Z (n : Z) : spec_float := binary_normalize 24 128 n 0 false.

(** [torch.cat((a, b), dim=0)]: the trailing shapes must agree and the
    rows of [b] follow those of [a]; a one-dimensional empty tensor is
    accepted next to any shape. *)
Definition torch_cat (a : tensor) (b : value) : result tensor :=
  match b with
  | VTensor b =>
      match shape a, shape b with
      | [], _ | _, [] => Raise RuntimeError
      | [0%nat], _ => Ok b
      | _, [0%nat] => Ok a
      | n :: sa, m :: sb =>
          if decide (sa = sb)
          then Ok (Tensor ((n + m)%nat :: sa) (data a ++ data b))
          else Raise RuntimeError
      end
  | _ => Raise TypeError
  end.

(** The slices of [d] of length [n] starting at [0], [n], ..., [(k-1)*n]. *)
Definition chunks {A} (n k : nat) (d : list A) : list (list A) :=
  map (fun i => take n (drop (i * n) d)) (seq 0 k).

(** The data of a tensor of shape [sh] broadcast to shape [target] of the
    same rank; [None] when a dimension neither matches nor is [1]. *)
Fixpoint expand {A} (target sh : list nat) (d : list A) : option (list A) :=
  match target, sh with
  | [], [] => Some d
  | t :: target', s :: sh' =>
      if (s =? t)%nat then
        option_map (@concat A)
          (mapM (expand target' sh') (chunks (numel sh') s d))
      else if (s =? 1)%nat then
        option_map (fun r => concat (replicate t r)) (expand target' sh' d)
      else None
  | _, _ => None
  end.

Definition broadcast_to (target : list nat) (b : tensor)
  : option (list spec_float) :=
  if (length (shape b) <=? length target)%nat then
    expand target
      (replicate (length target - length (shape b)) 1%nat ++ shape b)
      (data b)
  else None.

(** [a += v] for a tensor [a]: [v] is broadcast to the shape of [a], which
    an in-place operation cannot change; a Python number is converted to
    the element type.  An integer that does not fit 64 signed bits is left
    out of the embedding. *)
Definition tensor_iadd (a : tensor) (v : value) : result tensor :=
  match v with
  | VTensor b =>
      match broadcast_to (shape a) b with
      | Some d => Ok (Tensor (shape a) (zip_with f32_add (data a) d))
      | None => Raise RuntimeError
      end
  | VFloat x => Ok (Tensor (shape a) (map (fun y => f32_add y (f32_of_f64 x)) (data a)))
  | VInt n =>
      if ((- 2 ^ 63 <=? n) && (n <? 2 ^ 63))%Z
      then Ok (Tensor (shape a) (map (fun y => f32_add y (f32_of_Z n)) (data a)))
      else Unmodelled
  | _ => Raise TypeError
  end.

(** ** Cross-step accumulation *)

Definition sentinel : string := "__prediction_report__".

(** The body of the loop of [accumulate_tensor_fields_and_loss]. *)
Definition accumulate_field (report : odict) (self : odict) (key : string)
  : M odict :=
  if String.eqb key sentinel then ret self
  else if negb (contains self key) then
    let* _ := warn (String.append key
      " not found in report. Metrics calculation might not work as expected.") in
    ret self
  else
    let* v := lift (__getitem__ self key) in
    match v with
    | VTensor a =>
        let* o := lift (__getitem__ report key) in
        let* c := lift (torch_cat a o) in
        ret (setitem self key (VTensor c))
    | _ => ret self
    end.

(** [v.items()] and [v.keys()] need a mapping; [name] is the method. *)
Definition mapping_method (h : heap) (v : value) (name : string)
  : result (loc * mapping) :=
  match v with
  | VRef l =>
      match h !! l with
      | Some (OMapping m) => Ok (l, m)
      | Some (OList _) => Raise (AttributeError name)
      | _ => Unmodelled
      end
  | _ => Raise (AttributeError name)
  end.

(** The body of the loop of [_accumulate_loss], at the [i]-th item of the
    dict [report.losses], which lives at [lo].  Tensors being kept by
    value, [self.losses[key] += value] is the new value of the entry [key]
    of the dict [self.losses]; that PyTorch adds into the tensor object, so
    that another holder of the same tensor sees the sum too, is not
    tracked. *)
Definition accumulate_loss_step (self : odict) (lo : loc) (h : heap) (i : nat)
  : M heap :=
  match h !! lo with
  | Some (OMapping mo) =>
      match entries mo !! i with
      | Some (key, value) =>
          let* sl := lift (getattr self "losses") in
          let* (ls, ms) := lift (mapping_method h sl "keys") in
          if negb (contains (entries ms) key) then
            let* _ := warn (String.append key
              " not found in report. Loss calculation might not work as expected.") in
            ret h
          else
            let* x := lift (__getitem__ (entries ms) key) in
            match x with
            | VTensor a =>
                let* r := lift (tensor_iadd a value) in
                ret (<[ls := OMapping (Mapping
                       (setitem (entries ms) key (VTensor r))
                       (is_dict ms) (batch_size_of ms))]> h)
            | _ => ret h
            end
      | None => ret h
      end
  | _ => ret h
  end.

Definition _accumulate_loss (self report : odict) (h : heap) : M heap :=
  let* rl := lift (getattr report "losses") in
  let* (lo, mo) := lift (mapping_method h rl "items") in
  foldM (accumulate_loss_step self lo) (seq 0 (length (entries mo))) h.

Definition accumulate_tensor_fields_and_loss (self report : odict)
  (field_list : list string) (h : heap) : M (odict * heap) :=
  let* self := foldM (accumulate_field report) field_list self in
  let* h := _accumulate_loss self report h in
  ret (self, h).

(** ** Copy *)

Section Copy.

(** [copy.deepcopy], of the Python library: given the heap and a value
    it returns the heap with the clones allocated and the value that
    names them. *)
Variable deepcopy : heap -> value -> heap * value.

(** The body of the loop of [copy]:
    [report[field] = copy.deepcopy(self[field])]. *)
Definition copy_field (self : odict) (st : odict * heap) (field : string)
  : odict * heap :=
  let (report, h) := st in
  match getitem self field with
  | Some v => let (h', v') := deepcopy h v in (setitem report field v', h')
  | None => st
  end.

Definition copy (self : odict) (h : heap) : odict * heap :=
  foldl (copy_field self) ([], h) (fields self).

End Copy.

(** ** Functions the statements are written with *)

(** Assigning the items of [its] in order: [for k, v in its: d[k] = v]. *)
Definition assign_all (d its : odict) : odict :=
  foldl (fun d kv => setitem d kv.1 kv.2) d its.

(** The value of the last item of [its] with key [key]. *)
Definition last_binding (its : odict) (key : string) : option value :=
  getitem (reverse its) key.

(** The keys of [its] that are present when their item is assigned. *)
Fixpoint collisions (self its : odict) : list string :=
  match its with
  | [] => []
  | kv :: its' =>
      (if contains self kv.1 then [kv.1] else [])
        ++ collisions (setitem self kv.1 kv.2) its'
  end.

(** The text of the warning for a collision on [key]. *)
Definition collision_warning (key : string) : string :=
  String.append "Updating forward report with key "
    (String.append key
       ", but it already exists in in previous arguments to report. Please consider using a different key, as this can cause issues during loss and metric calculations.").

(** The store before the merge: the two attributes [__init__] assigns. *)
Definition initial_store (bs : value) : odict :=
  [("batch_size", bs); ("warning_string", VStr warning_template)].

(** [kv_pair] is a tuple or list whose first two elements are the string
    [kv.1] and the value [kv.2]. *)
Definition is_pair (h : heap) (kv_pair : value) (kv : string * value) : Prop :=
  is_tuple_or_list h kv_pair = true /\
  subscript h kv_pair 0 = Ok (VStr kv.1) /\
  subscript h kv_pair 1 = Ok kv.2.

(** Replacing every value of a dict by its image under [fn]. *)
Definition map_values (fn : value -> value) (m : mapping) : mapping :=
  Mapping ((fun kv => (kv.1, fn kv.2)) <$> entries m)
          (is_dict m) (batch_size_of m).

Definition metrics_warning (key : string) : string :=
  String.append key
    " not found in report. Metrics calculation might not work as expected.".

Definition loss_warning (key : string) : string :=
  String.append key
    " not found in report. Loss calculation might not work as expected.".

(** The part of [__init__] that follows the tuple check, on the heap [h]
    in which [model_output] has been given its default. *)
Definition merge_sources (h : heap) (batch model_output : value)
  (args : list value) : M odict :=
  let all_args := [batch; model_output] ++ args in
  let* _ := lift (check_mappings h all_args) in
  let* bs := lift (call_get_batch_size h batch) in
  foldM (merge_arg h) (enumerate all_args) (initial_store bs).

(** [args] are mappings, with the contents [ms]. *)
Definition mappings (h : heap) (args : list value) (ms : list mapping) : Prop :=
  Forall2 (fun a m => as_mapping h a = Some m) args ms.

(** The store in which [fn] has replaced the value of every key selected
    by [sel]. *)
Definition transform_store (fn : value -> value) (sel : string -> bool)
  (self : odict) : odict :=
  (fun kv => (kv.1, if sel kv.1 then fn kv.2 else kv.2)) <$> self.

(** Visiting the keys [ks] in order and replacing the value of each one
    selected by [sel]. *)
Definition update_where (fn : value -> value) (sel : string -> bool)
  (d : odict) (ks : list string) : odict :=
  foldl (fun d k =>
           if sel k then
             match getitem d k with
             | Some v => setitem d k (fn v)
             | None => d
             end
           else d) d ks.

(** The two attributes assigned before the merge stay the first two
    fields, and keys stay distinct. *)
Definition reserved_first (self : odict) : Prop :=
  (exists more, keys self = "batch_size" :: "warning_string" :: more)
  /\ NoDup (keys self).

(** Binary32 and binary64 numbers [m * 2^e]. *)
Definition f32 (m e : Z) : spec_float := binary_normalize 24 128 m e false.
Definition f64 (m e : Z) : spec_float := binary_normalize 53 1024 m e false.

(** A zero-dimensional tensor. *)
Definition scalar (x : spec_float) : value := VTensor (Tensor [] [x]).

(** Concrete objects used in the examples. *)
Definition incr (v : value) : value :=
  match v with VInt n => VInt (n + 1) | _ => v end.

Definition dict_of (its : odict) : object := OMapping (Mapping its true None).

Definition batch_of (its : odict) (bs : Z) : object :=
  OMapping (Mapping its true (Some (VInt bs))).

Definition example_heap : heap :=
  [batch_of [("a", VInt 1)] 4; dict_of [("b", VInt 2)];
   dict_of [("a", VInt 3)]].

Definition clobbered_heap : heap :=
  [batch_of [("warning_string", VInt 1); ("a", VInt 0)] 4; dict_of [];
   dict_of [("a", VInt 2)]].

(** [self.losses] at location 0 and [other.losses] at location 1, with
    tensor values and with plain Python floats. *)
Definition tensor_losses : heap :=
  [dict_of [("ce", scalar (f32 1 0))];
   dict_of [("ce", scalar (f32 1 (-1))); ("extra", scalar (f32 9 0))]].

Definition float_losses : heap :=
  [dict_of [("ce", VFloat (f64 1 0))];
   dict_of [("ce", VFloat (f64 1 (-1))); ("extra", VFloat (f64 9 0))]].

(** A list at location 0 that holds a number, a tuple and the list at
    location 1. *)
Definition nested_heap : heap :=
  [OList [VInt 1; VTuple [VInt 5]; VRef 1]; OList [VInt 7]].

Definition example_pairs : value :=
  VTuple [VTuple [VStr "a"; VInt 1]; VTuple [VStr "b"; VInt 2]].

(** ** Relocation *)

Section Relocation.

(** What [to] uses of PyTorch and of the leaves: the type of
    [torch.device] handles, the constructor [torch.device(s)] for a string,
    the test [hasattr(x, "to")] and the call
    [x.to(device, non_blocking=non_blocking)]. *)
Variable device : Type.
Variable torch_device : string -> result device.
Variable has_to : value -> bool.
Variable move : device -> bool -> value -> value.

(** The [device] argument: an instance of [torch.device], or any other
    value. *)
Inductive device_arg :=
| Device (d : device)
| NotDevice (v : value).

(** The local function [fn] of [to]. *)
Definition to_fn (d : device) (non_blocking : bool) (x : value) : value :=
  if has_to x then move d non_blocking x else x.

(** [self.to(device, non_blocking, fields)] *)
Definition to (dev : device_arg) (non_blocking : bool) (fields : value)
  (self : odict) (h : heap) : result (odict * heap) :=
  let? d :=
    match dev with
    | Device d => Ok d
    | NotDevice (VStr s) => torch_device s
    | NotDevice _ => Raise TypeError
    end in
  Ok (apply_fn (to_fn d non_blocking) fields self h).

End Relocation.

Arguments Device {device} d.
Arguments NotDevice {device} v.
Arguments to {device} torch_device has_to move dev non_blocking fields self h.
Arguments to_fn {device} has_to move d non_blocking x.

(** ** More functions the statements are written with *)

(** Two objects of the same class and size: lists of one length, mappings
    with the same keys in the same order. *)
Definition same_shape (o o' : object) : Prop :=
  match o, o' with
  | OList items, OList items' => length items' = length items
  | OMapping m, OMapping m' =>
      keys (entries m') = keys (entries m)
      /\ is_dict m' = is_dict m
      /\ batch_size_of m' = batch_size_of m
  | OOther, OOther => True
  | _, _ => False
  end.

(** Copying the values of [its] from left to right, each copy made in the
    heap the previous one left. *)
Fixpoint copy_entries (deepcopy : heap -> value -> heap * value)
  (its : odict) (h : heap) : odict * heap :=
  match its with
  | [] => ([], h)
  | (k, v) :: its' =>
      let (h1, v') := deepcopy h v in
      let (r, h2) := copy_entries deepcopy its' h1 in
      ((k, v') :: r, h2)
  end.

(** What the field loop of the accumulation keeps of [self]: the field
    list, every value that is not a tensor, and the presence of a value. *)
Definition kept_by_accumulation (self self' : odict) : Prop :=
  keys self' = keys self
  /\ (forall k v, getitem self k = Some v -> is_tensor v = false ->
                  getitem self' k = Some v)
  /\ (forall k, is_Some (getitem self k) -> is_Some (getitem self' k)).

(** The items of a Report as a sequence of [(key, value)] tuples. *)
Definition items_as_pairs (self : odict) : list value :=
  (fun kv => VTuple [VStr kv.1; kv.2]) <$> self.

(** The keys of every dict of the heap are distinct. *)
Definition distinct_keys (h : heap) : Prop :=
  Forall (fun o => match o with
                   | OMapping m => NoDup (keys (entries m))
                   | _ => True
                   end) h.

(** One level of [fn] inside the object the value [r] refers to: the
    elements of a list, the values of a dict; an object of another class,
    a mapping that is not a dict included, is left as it is. *)
Definition transform_object (fn : value -> value) (h : heap) (r : value)
  : heap :=
  match r with
  | VRef l =>
      match h !! l with
      | Some (OList items) => <[l := OList (fn <$> items)]> h
      | Some (OMapping m) =>
          if is_dict m then <[l := OMapping (map_values fn m)]> h else h
      | _ => h
      end
  | _ => h
  end.

(** The effect of [apply_fn] for one key, without loops: a key that is not
    skipped gets the image of its value, and the object that image refers
    to is transformed one level deep. *)
Definition transform_field (fn : value -> value) (fields : value)
  (st : odict * heap) (key : string) : odict * heap :=
  if skipped st.2 fields key then st
  else
    match getitem st.1 key with
    | Some v => (setitem st.1 key (fn v), transform_object fn st.2 (fn v))
    | None => st
    end.

(** [key in items] *)
Definition contained (items : list value) (key : string) : bool :=
  existsb (eq_key key) items.

(** The body of the loop of [apply_fn] run on the keys [ks] only, none of
    them skipped. *)
Definition apply_fn_on (fn : value -> value) (ks : list string)
  (self : odict) (h : heap) : odict * heap :=
  foldl (apply_fn_key fn VNone) (self, h) ks.




(** A mapping that is not a dict, at location 0. *)
Definition proxy_heap : heap := [OMapping (Mapping [("x", VInt 1)] false None)].

(** A list of field names at location 0, a set at location 1 and a list of
    numbers at location 2. *)
Definition selection_heap : heap := [OList [VStr "b"]; OOther; OList [VInt 7]].

(** A reference names an object of the heap. *)
Definition in_heap (h : heap) (v : value) : Prop :=
  match v with VRef l => l < length h | _ => True end.

(** * Properties *)

(** ** The backing store *)

Section store.
Implicit Types (d self : odict) (k key : string) (v : value).

Lemma getitem_setitem_eq d k v : getitem (setitem d k v) k = Some v.
Proof.
  induction d as [|[k' x] d IH]; simpl.
  - by rewrite String.eqb_refl.
  - destruct (String.eqb k' k) eqn:E; simpl; rewrite E; [done | exact IH].
Qed.

Lemma getitem_setitem_ne d k k' v :
  k <> k' -> getitem (setitem d k v) k' = getitem d k'.
Proof.
  intros Hne. induction d as [|[k0 x] d IH]; simpl.
  - apply String.eqb_neq in Hne. by rewrite Hne.
  - destruct (String.eqb k0 k) eqn:E; simpl.
    + apply String.eqb_eq in E as ->.
      apply String.eqb_neq in Hne. by rewrite Hne.
    + destruct (String.eqb k0 k'); [done | exact IH].
Qed.

Lemma contains_elem_of d k : contains d k = true <-> k ∈ keys d.
Proof.
  unfold contains. rewrite existsb_exists. split.
  - intros (x & Hx & E). apply String.eqb_eq in E as ->.
    by apply list_elem_of_In.
  - intros H. exists k. split; [by apply list_elem_of_In | apply String.eqb_refl].
Qed.

Lemma contains_cons k0 x d k :
  contains ((k0, x) :: d) k = String.eqb k0 k || contains d k.
Proof. unfold contains. simpl. by rewrite String.eqb_sym. Qed.

Lemma contains_getitem d k :
  contains d k = match getitem d k with Some _ => true | None => false end.
Proof.
  induction d as [|[k0 x] d IH]; [done |].
  rewrite contains_cons. simpl. destruct (String.eqb k0 k); [done | exact IH].
Qed.

Lemma keys_setitem d k v :
  keys (setitem d k v) = if contains d k then keys d else keys d ++ [k].
Proof.
  induction d as [|[k0 x] d IH]; [done |].
  rewrite contains_cons. simpl.
  destruct (String.eqb k0 k) eqn:E; simpl; [done |].
  rewrite IH. by destruct (contains d k).
Qed.

Lemma NoDup_setitem d k v : NoDup (keys d) -> NoDup (keys (setitem d k v)).
Proof.
  intros Hd. rewrite keys_setitem.
  destruct (contains d k) eqn:E; [done |].
  apply NoDup_app. split_and!; [done | | apply NoDup_singleton].
  intros x Hx ->%list_elem_of_singleton.
  apply contains_elem_of in Hx. congruence.
Qed.

Lemma contains_setitem d k v k' :
  contains (setitem d k v) k' = String.eqb k k' || contains d k'.
Proof.
  rewrite !contains_getitem.
  destruct (String.eqb k k') eqn:E.
  - apply String.eqb_eq in E as <-. by rewrite getitem_setitem_eq.
  - apply String.eqb_neq in E. by rewrite getitem_setitem_ne.
Qed.

End store.

(** ** Attribute access *)

Section attributes.
Implicit Types (self : odict) (x : string) (v : value).

Lemma getattr_plain self x :
  is_class_attr x = false -> x <> "batch_size" ->
  getattr self x = __getattr__ self x.
Proof.
  intros Hc Hx. unfold getattr, plain_attr.
  apply String.eqb_neq in Hx. by rewrite Hx, Hc.
Qed.

Lemma __getattr___spec self x :
  __getattr__ self x =
    match getitem self x with
    | Some v => Ok v
    | None => Raise (AttributeError x)
    end.
Proof. unfold __getattr__, __getitem__. by destruct (getitem self x). Qed.

(** The accessor reads the key [_batch_size] when the store has it, and
    the key [batch_size] otherwise. *)
Lemma get_batch_size_spec self :
  get_batch_size self =
    match getitem self "_batch_size", getitem self "batch_size" with
    | Some v, _ => Ok v
    | None, Some v => Ok v
    | None, None => Raise (AttributeError "batch_size")
    end.
Proof.
  unfold get_batch_size, getattr, batch_size, plain_attr.
  change (is_class_attr "_batch_size") with false.
  change (String.eqb "batch_size" "batch_size") with true.
  cbv iota. rewrite !__getattr___spec.
  by destruct (getitem self "_batch_size"), (getitem self "batch_size").
Qed.

Lemma get_batch_size_present self :
  contains self "batch_size" = true -> exists v, get_batch_size self = Ok v.
Proof.
  rewrite contains_getitem, get_batch_size_spec. intros H.
  destruct (getitem self "_batch_size"), (getitem self "batch_size");
    by eauto.
Qed.

End attributes.

(** ** Heaps that grow *)

Section heap_extension.
Implicit Types (h e : heap) (v : value).

Lemma as_mapping_app h e v m :
  as_mapping h v = Some m -> as_mapping (h ++ e) v = Some m.
Proof.
  destruct v; simpl; try done.
  destruct (h !! l) as [o|] eqn:E; [|done].
  by rewrite (lookup_app_l_Some _ _ _ _ E).
Qed.

Lemma is_mapping_app h e v :
  is_mapping h v = true -> is_mapping (h ++ e) v = true.
Proof.
  unfold is_mapping. destruct (as_mapping h v) eqn:E; [|done].
  by rewrite (as_mapping_app _ e _ _ E).
Qed.

Lemma subscript_app h e v i x :
  subscript h v i = Ok x -> subscript (h ++ e) v i = Ok x.
Proof.
  destruct v; simpl; try done.
  destruct (h !! l) as [o|] eqn:E; [|done].
  by rewrite (lookup_app_l_Some _ _ _ _ E).
Qed.

Lemma is_tuple_or_list_app h e v :
  is_tuple_or_list h v = true -> is_tuple_or_list (h ++ e) v = true.
Proof.
  destruct v; simpl; try done.
  destruct (h !! l) as [o|] eqn:E; [|done].
  by rewrite (lookup_app_l_Some _ _ _ _ E).
Qed.

Lemma iterate_app h e v items :
  iterate h v = Ok items -> iterate (h ++ e) v = Ok items.
Proof.
  destruct v; simpl; try done.
  destruct (h !! l) as [o|] eqn:E; [|done].
  by rewrite (lookup_app_l_Some _ _ _ _ E).
Qed.

Lemma is_pair_app h e kv_pair kv :
  is_pair h kv_pair kv -> is_pair (h ++ e) kv_pair kv.
Proof.
  intros (H1 & H2 & H3).
  split_and!; eauto using is_tuple_or_list_app, subscript_app.
Qed.

(** A tuple or a list is not a mapping. *)
Lemma iterate_not_mapping h v items :
  iterate h v = Ok items -> is_mapping h v = false.
Proof.
  unfold is_mapping. destruct v; simpl; try done.
  by destruct (h !! l) as [[]|].
Qed.

Lemma iterate_subscript h v items i x :
  iterate h v = Ok items -> items !! i = Some x -> subscript h v i = Ok x.
Proof.
  destruct v; simpl; try done.
  - by intros [= ->] ->.
  - destruct (h !! l) as [[]|]; try done. by intros [= ->] ->.
Qed.

End heap_extension.

(** ** Assigning a sequence of items *)

Section assign.
Implicit Types (d its : odict) (k : string) (v : value).

Lemma assign_all_app d its1 its2 :
  assign_all d (its1 ++ its2) = assign_all (assign_all d its1) its2.
Proof. apply foldl_app. Qed.

Lemma assign_all_cons d kv its :
  assign_all d (kv :: its) = assign_all (setitem d kv.1 kv.2) its.
Proof. done. Qed.

Lemma last_binding_snoc its k0 v0 k :
  last_binding (its ++ [(k0, v0)]) k =
    if String.eqb k0 k then Some v0 else last_binding its k.
Proof. unfold last_binding. by rewrite reverse_snoc. Qed.

(** The last assignment to a key wins; a key never assigned keeps its
    value. *)
Lemma getitem_assign_all d its k :
  getitem (assign_all d its) k =
    match last_binding its k with
    | Some v => Some v
    | None => getitem d k
    end.
Proof.
  revert d. induction its as [|[k0 v0] its IH] using rev_ind; intros d.
  - done.
  - rewrite assign_all_app, last_binding_snoc. simpl.
    destruct (String.eqb k0 k) eqn:E.
    + apply String.eqb_eq in E as ->. apply getitem_setitem_eq.
    + apply String.eqb_neq in E. rewrite getitem_setitem_ne by done. apply IH.
Qed.

Lemma last_binding_None its k : last_binding its k = None <-> k ∉ keys its.
Proof.
  induction its as [|[k0 v0] its IH] using rev_ind.
  - split; [intros _; apply not_elem_of_nil | done].
  - rewrite last_binding_snoc. unfold keys in *.
    rewrite fmap_app, not_elem_of_app. simpl.
    destruct (String.eqb k0 k) eqn:E.
    + apply String.eqb_eq in E as ->. split; [done |].
      intros [_ []]. apply list_elem_of_singleton. done.
    + apply String.eqb_neq in E. rewrite IH. split.
      * intros H. split; [done |]. by intros ?%list_elem_of_singleton.
      * by intros [H _].
Qed.

Lemma last_binding_app its1 its2 k :
  last_binding (its1 ++ its2) k =
    match last_binding its2 k with
    | Some v => Some v
    | None => last_binding its1 k
    end.
Proof.
  induction its2 as [|[k0 v0] its2 IH] using rev_ind.
  - by rewrite app_nil_r.
  - rewrite app_assoc, !last_binding_snoc.
    by destruct (String.eqb k0 k).
Qed.

(** With distinct keys the only item of a key is the last one. *)
Lemma last_binding_NoDup its k :
  NoDup (keys its) -> last_binding its k = getitem its k.
Proof.
  induction its as [|[k0 v0] its IH]; [done |].
  intros [Hk0 Hnd]%NoDup_cons. simpl in Hk0.
  change ((k0, v0) :: its) with ([(k0, v0)] ++ its).
  rewrite last_binding_app. simpl.
  destruct (String.eqb k0 k) eqn:E.
  - apply String.eqb_eq in E as ->.
    apply last_binding_None in Hk0. rewrite Hk0.
    unfold last_binding. simpl. by rewrite String.eqb_refl.
  - rewrite IH by done. destruct (getitem its k); [done |].
    unfold last_binding. simpl. by rewrite E.
Qed.

Lemma filter_ext_elem_of {A} (P Q : A -> Prop)
  `{!forall x, Decision (P x), !forall x, Decision (Q x)} (l : list A) :
  (forall x, x ∈ l -> (P x <-> Q x)) -> filter P l = filter Q l.
Proof.
  induction l as [|a l IH]; intros Hext; [done |].
  rewrite !filter_cons, IH by (intros x Hx; apply Hext; by right).
  destruct (decide (P a)) as [Hp|Hp], (decide (Q a)) as [Hq|Hq]; try done.
  - destruct Hq. apply Hext; [left | done].
  - destruct Hp. apply Hext; [left | done].
Qed.

Lemma keys_assign_all d its :
  NoDup (keys its) ->
  keys (assign_all d its) =
    keys d ++ filter (fun k => contains d k = false) (keys its).
Proof.
  revert d. induction its as [|[k0 v0] its IH]; intros d Hnd.
  - simpl. by rewrite filter_nil, app_nil_r.
  - apply NoDup_cons in Hnd as [Hk0 Hnd].
    rewrite assign_all_cons, IH by done. simpl.
    rewrite keys_setitem, filter_cons.
    assert (Hf : filter (fun k => contains (setitem d k0 v0) k = false) (keys its)
                 = filter (fun k => contains d k = false) (keys its)).
    { apply filter_ext_elem_of. intros k Hk.
      rewrite contains_setitem.
      destruct (String.eqb k0 k) eqn:E; [|done].
      apply String.eqb_eq in E as ->. done. }
    rewrite Hf. destruct (contains d k0) eqn:E.
    + by rewrite decide_False by done.
    + rewrite decide_True by done. by rewrite <- app_assoc.
Qed.

Lemma assign_all_fresh d its :
  NoDup (keys d ++ keys its) -> assign_all d its = d ++ its.
Proof.
  revert d. induction its as [|[k0 v0] its IH]; intros d Hnd.
  - by rewrite app_nil_r.
  - rewrite assign_all_cons. simpl.
    assert (Hs : setitem d k0 v0 = d ++ [(k0, v0)]).
    { apply NoDup_app in Hnd as (_ & Hdis & _).
      assert (Hk : k0 ∉ keys d).
      { intros Hin. apply (Hdis _ Hin). simpl. left. }
      clear -Hk. induction d as [|[k x] d IHd]; [done |].
      simpl in *. apply not_elem_of_cons in Hk as [Hne Hk].
      apply not_eq_sym in Hne. apply String.eqb_neq in Hne.
      rewrite Hne. by rewrite IHd. }
    rewrite Hs, IH.
    + by rewrite <- app_assoc.
    + unfold keys in *. rewrite fmap_app. simpl.
      rewrite <- app_assoc. exact Hnd.
Qed.

End assign.

(** ** Computations in [M] *)

Section monad.
Context {A B : Type}.
Implicit Types (m : M A) (f : A -> M B) (w : list string).

Lemma bind_ok m f w a w' : m w = (Ok a, w') -> bind m f w = f a w'.
Proof. unfold bind. by intros ->. Qed.

Lemma bind_inv_ok m f w b w2 :
  bind m f w = (Ok b, w2) ->
  exists a w1, m w = (Ok a, w1) /\ f a w1 = (Ok b, w2).
Proof.
  unfold bind. destruct (m w) as [[a|e|] w1]; [eauto | done | done].
Qed.

End monad.

Lemma foldM_app {A B} (f : A -> B -> M A) l1 l2 a w a1 w1 :
  foldM f l1 a w = (Ok a1, w1) ->
  foldM f (l1 ++ l2) a w = foldM f l2 a1 w1.
Proof.
  revert a w. induction l1 as [|b l1 IH]; intros a w; simpl.
  - unfold ret. by intros [= -> ->].
  - intros (a' & w' & Hf & Hrest)%bind_inv_ok.
    rewrite (bind_ok _ _ _ _ _ Hf). by apply IH.
Qed.

(** A property every successful step preserves holds after the loop. *)
Lemma foldM_invariant {A B} (P : A -> Prop) (f : A -> B -> M A) l :
  (forall a b w a' w', P a -> f a b w = (Ok a', w') -> P a') ->
  forall a w a' w', P a -> foldM f l a w = (Ok a', w') -> P a'.
Proof.
  intros Hstep. induction l as [|b l IH]; intros a w a' w' Ha; simpl.
  - unfold ret. by intros [= <- _].
  - intros (a1 & w1 & Hf & Hrest)%bind_inv_ok. eauto.
Qed.

(** ** Construction: the merge loop *)

Section merge.
Implicit Types (h : heap) (self its : odict) (w : list string).

Lemma format_template key :
  py_format warning_template [key; ""; "in previous arguments to report"]
  = Ok (collision_warning key).
Proof. reflexivity. Qed.

(** Whatever else a step of the merge does, it ends by assigning. *)
Lemma merge_item_ok h idx self kv w self' w' :
  merge_item h idx self kv w = (Ok self', w') ->
  self' = setitem self kv.1 kv.2.
Proof.
  unfold merge_item.
  intros (u & w1 & _ & Hret)%bind_inv_ok. by injection Hret as <- _.
Qed.

(** Positions 0 and 1, [batch] and [model_output], never warn. *)
Lemma merge_item_silent h idx self kv w :
  idx < 2 ->
  merge_item h idx self kv w = (Ok (setitem self kv.1 kv.2), w).
Proof.
  intros Hidx. unfold merge_item.
  assert ((2 <=? idx)%nat = false) as -> by by apply Nat.leb_gt.
  by rewrite andb_false_r.
Qed.

Lemma merge_items_silent h idx its self w :
  idx < 2 ->
  foldM (merge_item h idx) its self w = (Ok (assign_all self its), w).
Proof.
  intros Hidx. revert self. induction its as [|kv its IH]; intros self.
  - done.
  - simpl. rewrite (bind_ok _ _ _ _ _ (merge_item_silent h idx self kv w Hidx)).
    apply IH.
Qed.

(** From position 2 on a key already present is reported, as long as the
    field [warning_string] holds the template. *)
Lemma merge_item_extra h idx self kv w :
  2 <= idx ->
  getitem self "warning_string" = Some (VStr warning_template) ->
  merge_item h idx self kv w =
    (Ok (setitem self kv.1 kv.2),
     w ++ (if contains self kv.1 then [collision_warning kv.1] else [])).
Proof.
  intros Hidx Hws. unfold merge_item.
  assert ((2 <=? idx)%nat = true) as -> by by apply Nat.leb_le.
  rewrite andb_true_r. destruct (contains self kv.1).
  - unfold getattr, plain_attr.
    change (String.eqb "warning_string" "batch_size") with false.
    change (is_class_attr "warning_string") with false. cbv iota.
    rewrite __getattr___spec, Hws. unfold format_value.
    unfold bind at 1. unfold bind at 1. unfold lift at 1.
    unfold bind at 1. unfold lift at 1. rewrite format_template. done.
  - by rewrite app_nil_r.
Qed.

Lemma merge_items_extra h idx its self w :
  2 <= idx ->
  getitem self "warning_string" = Some (VStr warning_template) ->
  "warning_string" ∉ keys its ->
  foldM (merge_item h idx) its self w =
    (Ok (assign_all self its),
     w ++ (collision_warning <$> collisions self its)).
Proof.
  intros Hidx. revert self w.
  induction its as [|[k v] its IH]; intros self w Hws Hk.
  - simpl. by rewrite app_nil_r.
  - apply not_elem_of_cons in Hk as [Hne Hk]. simpl in Hne.
    cbn [foldM].
    rewrite (bind_ok _ _ _ _ _ (merge_item_extra h idx self (k, v) w Hidx Hws)).
    rewrite IH; [| by rewrite getitem_setitem_ne | done].
    cbn [collisions]. rewrite fmap_app, app_assoc.
    do 3 f_equal. simpl. by destruct (contains self k).
Qed.

Lemma collisions_app self its1 its2 :
  collisions self (its1 ++ its2) =
    collisions self its1 ++ collisions (assign_all self its1) its2.
Proof.
  revert self. induction its1 as [|kv its1 IH]; intros self; [done |].
  simpl. by rewrite IH, app_assoc.
Qed.

Lemma collisions_NoDup self its :
  NoDup (keys its) ->
  collisions self its = filter (fun k => contains self k = true) (keys its).
Proof.
  revert self. induction its as [|[k v] its IH]; intros self Hnd; [done |].
  apply NoDup_cons in Hnd as [Hk Hnd]. simpl in *.
  rewrite IH, filter_cons by done. simpl.
  assert (Hf : filter (fun k' => contains (setitem self k v) k' = true) (keys its)
               = filter (fun k' => contains self k' = true) (keys its)).
  { apply filter_ext_elem_of. intros k' Hk'. rewrite contains_setitem.
    destruct (String.eqb k k') eqn:E; [|done].
    apply String.eqb_eq in E as ->. done. }
  rewrite Hf. destruct (contains self k) eqn:E.
  - by rewrite decide_True.
  - by rewrite decide_False.
Qed.

Lemma elem_of_collisions self its1 k v its2 :
  contains (assign_all self its1) k = true ->
  k ∈ collisions self (its1 ++ (k, v) :: its2).
Proof.
  intros Hc. rewrite collisions_app. apply elem_of_app. right.
  simpl. rewrite Hc. left.
Qed.

Lemma getitem_assign_all_other self its k :
  k ∉ keys its -> getitem (assign_all self its) k = getitem self k.
Proof.
  intros Hk. rewrite getitem_assign_all.
  apply last_binding_None in Hk. by rewrite Hk.
Qed.

End merge.

(** ** Construction: the paths of [__init__] *)

Section construction.
Implicit Types (h : heap) (batch model_output : value) (args : list value).

Lemma init_default h model_output args :
  __init__ h VNone model_output args = ret [].
Proof. done. Qed.

Lemma check_and_load_mapping h self batch :
  is_mapping h batch = true ->
  _check_and_load_tuple h self batch = Ok (false, self).
Proof. unfold _check_and_load_tuple. by intros ->. Qed.

(** With a mapping as [batch] the constructor merges; a missing
    [model_output] is a fresh empty dict. *)
Lemma init_mapping_path h batch model_output args :
  is_mapping h batch = true ->
  __init__ h batch model_output args =
    match model_output with
    | VNone =>
        merge_sources (h ++ [OMapping empty_dict]) batch (VRef (length h)) args
    | _ => merge_sources h batch model_output args
    end.
Proof.
  intros Hb. unfold __init__.
  destruct batch; try done.
  destruct model_output;
    (rewrite check_and_load_mapping; [done | by auto using is_mapping_app]).
Qed.

Lemma load_pairs h kv_pairs prs self :
  Forall2 (is_pair h) kv_pairs prs ->
  foldR (load_pair h) kv_pairs self = Ok (assign_all self prs).
Proof.
  intros Hp. revert self.
  induction Hp as [|kv_pair [k v] kv_pairs prs (_ & H0 & H1) _ IH];
    intros self; [done |].
  simpl in *. unfold load_pair at 1. rewrite H1, H0. simpl. apply IH.
Qed.

Lemma check_and_load_pairs h batch first rest prs :
  iterate h batch = Ok (first :: rest) ->
  Forall2 (is_pair h) (first :: rest) prs ->
  _check_and_load_tuple h [] batch = Ok (true, assign_all [] prs).
Proof.
  intros Hit Hp. unfold _check_and_load_tuple.
  rewrite (iterate_not_mapping _ _ _ Hit).
  rewrite (iterate_subscript _ _ _ 0 first Hit) by done. simpl.
  assert (Hfirst := Hp). apply Forall2_cons_inv_l in Hfirst
    as ([k v] & prs' & (Htl & H0 & _) & _ & _).
  rewrite Htl, H0. cbn [is_str rbind]. rewrite Hit. cbn [rbind].
  by rewrite (load_pairs _ _ _ _ Hp).
Qed.

(** With a sequence of pairs as [batch] the constructor loads them and
    returns; [model_output] and [args] are not looked at. *)
Lemma init_tuple_path h batch first rest prs model_output args :
  iterate h batch = Ok (first :: rest) ->
  Forall2 (is_pair h) (first :: rest) prs ->
  __init__ h batch model_output args = ret (assign_all [] prs).
Proof.
  intros Hit Hp. unfold __init__.
  assert (Hb : batch <> VNone) by (by intros ->).
  destruct batch; try done;
    destruct model_output;
    (erewrite check_and_load_pairs;
       [done | by eauto using iterate_app
             | by eauto using Forall2_impl, is_pair_app]).
Qed.

Lemma check_mappings_from h n args ms :
  mappings h args ms ->
  foldR (fun _ (ia : nat * value) =>
           if is_mapping h ia.2 then Ok tt else Raise (ArgTypeError ia.1))
        (enumerate_from n args) tt = Ok tt.
Proof.
  intros Hm. revert n. induction Hm as [|a m args ms Ha _ IH]; intros n.
  - done.
  - simpl. unfold is_mapping. rewrite Ha. simpl. apply IH.
Qed.

Lemma merge_arg_mapping h self idx arg m :
  as_mapping h arg = Some m ->
  merge_arg h self (idx, arg) = foldM (merge_item h idx) (entries m) self.
Proof. intros Ha. unfold merge_arg, items_of. simpl. by rewrite Ha. Qed.

Lemma merge_extras h n args ms self w :
  2 <= n ->
  mappings h args ms ->
  getitem self "warning_string" = Some (VStr warning_template) ->
  Forall (fun m => "warning_string" ∉ keys (entries m)) ms ->
  foldM (merge_arg h) (enumerate_from n args) self w =
    (Ok (assign_all self (concat (entries <$> ms))),
     w ++ (collision_warning <$> collisions self (concat (entries <$> ms)))).
Proof.
  intros Hn Hm. revert n self w Hn.
  induction Hm as [|a m args ms Ha _ IH]; intros n self w Hn Hws Hk.
  - simpl. by rewrite app_nil_r.
  - apply Forall_cons in Hk as [Hk Hks]. cbn [enumerate_from foldM].
    rewrite (merge_arg_mapping _ _ _ _ _ Ha).
    erewrite bind_ok; [| by apply merge_items_extra].
    rewrite IH; [| lia | by rewrite getitem_assign_all_other | done].
    cbn [fmap list_fmap concat].
    by rewrite assign_all_app, collisions_app, fmap_app, app_assoc.
Qed.

(** The merge, when every source is a mapping and none carries the key
    [warning_string]. *)
Lemma merge_sources_spec h batch model_output args mb mm ms bs :
  as_mapping h batch = Some mb ->
  as_mapping h model_output = Some mm ->
  mappings h args ms ->
  batch_size_of mb = Some bs ->
  Forall (fun m => "warning_string" ∉ keys (entries m)) (mb :: mm :: ms) ->
  let merged := assign_all (initial_store bs) (entries mb ++ entries mm) in
  let extra := concat (entries <$> ms) in
  run (merge_sources h batch model_output args) =
    (Ok (assign_all merged extra),
     collision_warning <$> collisions merged extra).
Proof.
  intros Hb Hmo Hargs Hbs Hk merged extra.
  apply Forall_cons in Hk as [Hkb Hk]. apply Forall_cons in Hk as [Hkm Hk].
  unfold run, merge_sources, check_mappings, enumerate. cbn [app].
  rewrite (check_mappings_from h 0 (batch :: model_output :: args)
             (mb :: mm :: ms)) by (by repeat constructor).
  unfold call_get_batch_size. rewrite Hb, Hbs.
  unfold bind at 1. unfold lift at 1. unfold bind at 1. unfold lift at 1.
  cbn [app enumerate_from foldM].
  rewrite (merge_arg_mapping _ _ _ _ _ Hb).
  erewrite bind_ok; [| by apply merge_items_silent; lia].
  rewrite (merge_arg_mapping _ _ _ _ _ Hmo).
  erewrite bind_ok; [| by apply merge_items_silent; lia].
  rewrite <- assign_all_app. fold merged.
  rewrite (merge_extras h 2 args ms merged []); [done | lia | done | | done].
  unfold merged. rewrite getitem_assign_all_other; [done |].
  unfold keys. rewrite fmap_app. by apply not_elem_of_app.
Qed.

(** Without extra arguments nothing can fail and nothing is reported,
    whatever the keys. *)
Lemma merge_two_sources h batch model_output mb mm bs :
  as_mapping h batch = Some mb ->
  as_mapping h model_output = Some mm ->
  batch_size_of mb = Some bs ->
  run (merge_sources h batch model_output []) =
    (Ok (assign_all (initial_store bs) (entries mb ++ entries mm)), []).
Proof.
  intros Hb Hmo Hbs.
  unfold run, merge_sources, check_mappings, enumerate. cbn [app].
  rewrite (check_mappings_from h 0 [batch; model_output] [mb; mm])
    by (by repeat constructor).
  unfold call_get_batch_size. rewrite Hb, Hbs.
  unfold bind at 1. unfold lift at 1. unfold bind at 1. unfold lift at 1.
  cbn [app enumerate_from foldM].
  rewrite (merge_arg_mapping _ _ _ _ _ Hb).
  erewrite bind_ok; [| by apply merge_items_silent; lia].
  rewrite (merge_arg_mapping _ _ _ _ _ Hmo).
  erewrite bind_ok; [| by apply merge_items_silent; lia].
  by rewrite <- assign_all_app.
Qed.

End construction.

(** ** Construction: the fields of a merged Report *)

Section merged_fields.
Implicit Types (h : heap) (self : odict).

Lemma reserved_first_initial bs : reserved_first (initial_store bs).
Proof.
  split; [by exists [] |].
  by apply (bool_decide_unpack _).
Qed.

Lemma reserved_first_setitem self k v :
  reserved_first self -> reserved_first (setitem self k v).
Proof.
  intros [[more Hk] Hnd]. split; [| by apply NoDup_setitem].
  rewrite keys_setitem, Hk. destruct (contains self k); eauto.
Qed.

Lemma merge_arg_reserved h self ia w self' w' :
  reserved_first self ->
  merge_arg h self ia w = (Ok self', w') -> reserved_first self'.
Proof.
  intros Hr. unfold merge_arg.
  intros (its & w1 & _ & Hfold)%bind_inv_ok. revert Hfold.
  apply foldM_invariant; [| done].
  intros a kv w0 a' w0' Ha ->%merge_item_ok. by apply reserved_first_setitem.
Qed.

Lemma merge_sources_reserved h batch model_output args w self w' :
  merge_sources h batch model_output args w = (Ok self, w') ->
  reserved_first self.
Proof.
  unfold merge_sources.
  intros (u & w1 & _ & H1)%bind_inv_ok.
  apply bind_inv_ok in H1 as (bs & w2 & _ & Hfold). revert Hfold.
  apply foldM_invariant; [| apply reserved_first_initial].
  intros a ia w0 a' w0' Ha. by apply merge_arg_reserved.
Qed.

Lemma init_mapping_reserved h batch model_output args self log :
  is_mapping h batch = true ->
  run (__init__ h batch model_output args) = (Ok self, log) ->
  reserved_first self.
Proof.
  intros Hb. rewrite (init_mapping_path _ _ _ _ Hb). unfold run.
  destruct model_output; apply merge_sources_reserved.
Qed.

Lemma reserved_first_shape self :
  reserved_first self ->
  exists bs ws rest,
    self = ("batch_size", bs) :: ("warning_string", ws) :: rest.
Proof.
  intros [[more Hk] _].
  destruct self as [|[k1 v1] [|[k2 v2] rest]]; try done.
  simpl in Hk. injection Hk as -> -> _. eauto.
Qed.

Lemma filter_not_reserved bs (ks : list string) :
  filter (fun k => contains (initial_store bs) k = false) ks =
  filter (fun k => k <> "batch_size" /\ k <> "warning_string") ks.
Proof.
  apply list_filter_iff. intros k. unfold initial_store.
  rewrite !contains_cons. change (contains [] k) with false.
  rewrite orb_false_r, orb_false_iff, !String.eqb_neq. intuition congruence.
Qed.

Lemma filter_not_reserved_id (ks : list string) :
  "batch_size" ∉ ks -> "warning_string" ∉ ks ->
  filter (fun k => k <> "batch_size" /\ k <> "warning_string") ks = ks.
Proof.
  induction ks as [|k ks IH]; [done |].
  intros [? ?]%not_elem_of_cons [? ?]%not_elem_of_cons.
  rewrite filter_cons, decide_True by done. f_equal. by apply IH.
Qed.

End merged_fields.

(** C1 (counterexample).  With [batch = {"a": 1}] and
    [model_output = {"b": 2}] the fields of the Report are not the union
    [a, b] of the two key sets: [batch_size] and [warning_string] come
    first. *)
Lemma init_fields_counterexample :
  run (__init__ example_heap (VRef 0) (VRef 1) []) =
    (Ok [("batch_size", VInt 4); ("warning_string", VStr warning_template);
         ("a", VInt 1); ("b", VInt 2)], [])
  /\ fields [("batch_size", VInt 4); ("warning_string", VStr warning_template);
            ("a", VInt 1); ("b", VInt 2)]
     <> ["a"; "b"].
Proof. split; [reflexivity | discriminate]. Qed.

(** C1 (as amended).  For mapping sources [batch] and [model_output] with
    disjoint key sets, construction succeeds without a warning and the
    field list of the Report is [batch_size], [warning_string], then the
    keys of [batch] in iteration order, then those of [model_output], a
    key named [batch_size] or [warning_string] in a source keeping the
    place of the attribute; no other field is present. *)
Theorem init_fields_disjoint h batch model_output mb mm bs :
  as_mapping h batch = Some mb ->
  as_mapping h model_output = Some mm ->
  batch_size_of mb = Some bs ->
  NoDup (keys (entries mb) ++ keys (entries mm)) ->
  exists self,
    run (__init__ h batch model_output []) = (Ok self, []) /\
    fields self =
      ["batch_size"; "warning_string"]
        ++ filter (fun k => k <> "batch_size" /\ k <> "warning_string")
                  (keys (entries mb) ++ keys (entries mm)) /\
    ("batch_size" ∉ keys (entries mb) ++ keys (entries mm) ->
     "warning_string" ∉ keys (entries mb) ++ keys (entries mm) ->
     fields self =
       ["batch_size"; "warning_string"]
         ++ keys (entries mb) ++ keys (entries mm)).
Proof.
  intros Hb Hmo Hbs Hnd.
  assert (Hm : is_mapping h batch = true) by (unfold is_mapping; by rewrite Hb).
  exists (assign_all (initial_store bs) (entries mb ++ entries mm)).
  assert (Hf : fields (assign_all (initial_store bs) (entries mb ++ entries mm))
               = ["batch_size"; "warning_string"]
                   ++ filter (fun k => k <> "batch_size" /\ k <> "warning_string")
                        (keys (entries mb) ++ keys (entries mm))).
  { unfold fields. rewrite keys_assign_all.
    - rewrite filter_not_reserved. unfold keys. by rewrite fmap_app.
    - unfold keys. by rewrite fmap_app. }
  split_and!.
  - rewrite (init_mapping_path _ _ _ _ Hm).
    destruct model_output; try done; by apply merge_two_sources.
  - exact Hf.
  - intros H1 H2. by rewrite Hf, filter_not_reserved_id.
Qed.

Lemma init_fields_disjoint_witness :
  exists self,
    run (__init__ example_heap (VRef 0) (VRef 1) []) = (Ok self, []) /\
    fields self = ["batch_size"; "warning_string"; "a"; "b"].
Proof.
  destruct (init_fields_disjoint example_heap (VRef 0) (VRef 1)
              (Mapping [("a", VInt 1)] true (Some (VInt 4)))
              (Mapping [("b", VInt 2)] true None) (VInt 4))
    as (self & Hrun & Hfields & _).
  - reflexivity.
  - reflexivity.
  - reflexivity.
  - apply (bool_decide_unpack _). vm_compute. exact I.
  - exists self. split; [exact Hrun | exact Hfields].
Defined.

Lemma getitem_None (d : odict) k : getitem d k = None <-> k ∉ keys d.
Proof.
  rewrite <- contains_elem_of, contains_getitem.
  destruct (getitem d k); split; by try done.
Qed.


Lemma elem_of_collisions_present (self its : odict) k :
  k ∈ keys its -> contains self k = true -> k ∈ collisions self its.
Proof.
  revert self. induction its as [|[k0 v0] its IH]; intros self Hk Hc.
  - by apply elem_of_nil in Hk.
  - simpl. destruct (decide (k0 = k)) as [->|Hne].
    + rewrite Hc. left.
    + apply elem_of_app. right. apply IH.
      * apply elem_of_cons in Hk as [?|?]; [by subst | done].
      * rewrite contains_setitem, Hc. apply orb_true_r.
Qed.

Lemma get_batch_size_iff (self : odict) :
  (exists v, get_batch_size self = Ok v) <->
  "_batch_size" ∈ keys self \/ "batch_size" ∈ keys self.
Proof.
  rewrite get_batch_size_spec.
  destruct (getitem self "_batch_size") eqn:E1.
  { split; [intros _ | by eauto]. left.
    destruct (decide ("_batch_size" ∈ keys self)) as [|Hn]; [done |].
    apply getitem_None in Hn. congruence. }
  destruct (getitem self "batch_size") eqn:E2.
  { split; [intros _ | by eauto]. right.
    destruct (decide ("batch_size" ∈ keys self)) as [|Hn]; [done |].
    apply getitem_None in Hn. congruence. }
  apply getitem_None in E1, E2. split; [by intros [v ?] | tauto].
Qed.

(** C2 (failing input).  With [batch = {"warning_string": 1, "a": 0}],
    an empty [model_output] and the extra argument [{"a": 2}], the extra
    argument shares the key [a] with [batch]: a warning naming [a] is due
    and the value [2] should win.  The text of the warning is formatted
    from the field [warning_string], which the merge of [batch] has
    overwritten with [1]: the call of [format] raises [AttributeError], no
    warning is emitted and the construction fails. *)
Theorem init_collision_clobbered :
  run (__init__ clobbered_heap (VRef 0) (VRef 1) [VRef 2]) =
    (Raise (AttributeError "format"), []).
Proof. reflexivity. Qed.




(** C4 (counterexample).  In the batches [(("a", 1), 5)] and
    [(("a", 1), ("b",))] the first element is a pair of a string and a
    value, yet nothing is loaded: the first construction raises
    [TypeError] at the second element, the second one [IndexError]. *)
Lemma init_tuple_counterexample :
  run (__init__ [] (VTuple [VTuple [VStr "a"; VInt 1]; VInt 5]) VNone [])
  = (Raise TypeError, [])
  /\ run (__init__ [] (VTuple [VTuple [VStr "a"; VInt 1]; VTuple [VStr "b"]])
            VNone [])
     = (Raise IndexError, []).
Proof. split; reflexivity. Qed.

(** C4 (as amended).  When every element of the tuple or list [batch] is
    a pair, a tuple or list holding a string key and a value, construction
    returns the Report in which those pairs have been assigned in sequence
    order, without error or warning, whatever [model_output] and the extra
    arguments are: with distinct keys the fields are exactly the pairs, in
    order; in general the last pair of a key gives its value. *)
Theorem init_tuple_of_pairs h batch first rest prs model_output args :
  iterate h batch = Ok (first :: rest) ->
  Forall2 (is_pair h) (first :: rest) prs ->
  exists self,
    run (__init__ h batch model_output args) = (Ok self, []) /\
    self = assign_all [] prs /\
    (forall k, getitem self k = last_binding prs k) /\
    (NoDup (keys prs) -> self = prs).
Proof.
  intros Hit Hp. exists (assign_all [] prs). split_and!.
  - by rewrite (init_tuple_path _ _ _ _ _ _ _ Hit Hp).
  - done.
  - intros k. rewrite getitem_assign_all. by destruct (last_binding prs k).
  - intros Hnd. by rewrite assign_all_fresh.
Qed.

Lemma init_tuple_of_pairs_witness :
  exists self,
    run (__init__ example_heap example_pairs (VInt 7) [VRef 2])
      = (Ok self, []) /\
    self = [("a", VInt 1); ("b", VInt 2)].
Proof.
  destruct (init_tuple_of_pairs example_heap example_pairs
              (VTuple [VStr "a"; VInt 1]) [VTuple [VStr "b"; VInt 2]]
              [("a", VInt 1); ("b", VInt 2)] (VInt 7) [VRef 2])
    as (self & Hrun & _ & _ & Hnd).
  - reflexivity.
  - repeat constructor.
  - exists self. split; [exact Hrun |].
    apply Hnd. apply (bool_decide_unpack _). vm_compute. exact I.
Defined.

(** C5 (counterexample).  On the Report whose only field is
    [fields = 1], the attribute read [report.fields] gives the method of
    the class and the subscript [report["fields"]] gives [1]; and on the
    empty Report, where the key is absent, the attribute read does not
    fail. *)
Lemma attribute_read_counterexample :
  getattr [("fields", VInt 1)] "fields" = Ok (VAttr "fields")
  /\ __getitem__ [("fields", VInt 1)] "fields" = Ok (VInt 1)
  /\ getattr [("fields", VInt 1)] "fields"
     <> __getitem__ [("fields", VInt 1)] "fields"
  /\ getattr [] "fields" = Ok (VAttr "fields").
Proof. split_and!; [reflexivity | reflexivity | discriminate | reflexivity]. Qed.

(** C5 (as amended).  For every Report and every key [x] that is not the
    name of a class-level attribute of Report (a method or the property
    [batch_size] of the class, or a name inherited from [OrderedDict]):
    [report.x] and [report["x"]] return the same value when the key is
    present; a value written through either syntax is the one read through
    the other; and reading an absent key through the attribute syntax
    raises [AttributeError], where the subscript raises [KeyError]. *)
Theorem attribute_subscript_unified self x :
  is_class_attr x = false ->
  x <> "batch_size" ->
  (forall v, getitem self x = Some v ->
             getattr self x = Ok v /\ __getitem__ self x = Ok v)
  /\ (forall v, __getitem__ (setattr self x v) x = Ok v
                /\ getattr (setitem self x v) x = Ok v)
  /\ (getitem self x = None ->
      getattr self x = Raise (AttributeError x)
      /\ __getitem__ self x = Raise (KeyError x)).
Proof.
  intros Hc Hx. split_and!.
  - intros v Hv. rewrite getattr_plain, __getattr___spec by done.
    unfold __getitem__. by rewrite Hv.
  - intros v. rewrite getattr_plain, __getattr___spec by done.
    unfold __getitem__, setattr, __setattr__.
    by rewrite getitem_setitem_eq.
  - intros Hv. rewrite getattr_plain, __getattr___spec by done.
    unfold __getitem__. by rewrite Hv.
Qed.

Lemma attribute_subscript_unified_witness :
  (getattr [("scores", VInt 1)] "scores" = Ok (VInt 1)
   /\ __getitem__ [("scores", VInt 1)] "scores" = Ok (VInt 1))
  /\ getattr [("scores", VInt 1)] "missing" = Raise (AttributeError "missing").
Proof.
  split.
  - apply (proj1 (attribute_subscript_unified [("scores", VInt 1)] "scores"
                    eq_refl ltac:(discriminate)) (VInt 1) eq_refl).
  - apply (proj2 (proj2 (attribute_subscript_unified [("scores", VInt 1)]
                           "missing" eq_refl ltac:(discriminate))) eq_refl).
Defined.

(** ** Transform application: the loops *)

Section apply_fn_loops.
Variable fn : value -> value.
Implicit Types (h : heap) (l : loc) (d self : odict).

(** The loop over a list replaces every element by its image, in place. *)
Lemma list_loop_prefix l h items n :
  h !! l = Some (OList items) ->
  n <= length items ->
  foldl (list_step fn l) h (seq 0 n) =
    <[l := OList ((fn <$> take n items) ++ drop n items)]> h.
Proof.
  intros Hl. induction n as [|n IH]; intros Hn.
  - rewrite take_0, drop_0. cbn [seq foldl fmap list_fmap app].
    by rewrite list_insert_id.
  - rewrite seq_S, foldl_app, IH by lia. simpl.
    assert (Hlt : l < length h) by eauto using lookup_lt_Some.
    destruct (lookup_lt_is_Some_2 items n) as [item Hitem]; [lia |].
    unfold list_step. rewrite list_lookup_insert_eq by done.
    assert (Hlen : length (fn <$> take n items) = n)
      by (rewrite length_fmap, length_take_le; lia).
    rewrite lookup_app_r by lia.
    rewrite Hlen, Nat.sub_diag, lookup_drop, Nat.add_0_r, Hitem.
    rewrite list_insert_insert_eq. do 2 f_equal.
    rewrite insert_app_r_alt by lia.
    rewrite Hlen, Nat.sub_diag, (drop_S _ _ _ Hitem). simpl.
    rewrite (take_S_r _ _ _ Hitem), fmap_app. simpl.
    by rewrite <- app_assoc.
Qed.

Lemma list_loop l h items :
  h !! l = Some (OList items) ->
  foldl (list_step fn l) h (seq 0 (length items)) =
    <[l := OList (fn <$> items)]> h.
Proof.
  intros Hl. rewrite (list_loop_prefix _ _ _ _ Hl) by done.
  by rewrite take_ge, drop_ge, app_nil_r by done.
Qed.

Lemma update_where_snoc sel d ks k :
  update_where fn sel d (ks ++ [k]) =
    let d' := update_where fn sel d ks in
    if sel k then
      match getitem d' k with Some v => setitem d' k (fn v) | None => d' end
    else d'.
Proof. unfold update_where. by rewrite foldl_app. Qed.

(** The loop over a dict visits its keys and replaces the value of each. *)
Lemma dict_loop l h m ks :
  h !! l = Some (OMapping m) ->
  foldl (dict_step fn l) h ks =
    <[l := OMapping (Mapping (update_where fn (fun _ => true) (entries m) ks)
                             (is_dict m) (batch_size_of m))]> h.
Proof.
  intros Hl. assert (Hlt : l < length h) by eauto using lookup_lt_Some.
  induction ks as [|k ks IH] using rev_ind.
  - simpl. rewrite list_insert_id; [done |]. by destruct m.
  - rewrite foldl_app, IH, update_where_snoc. simpl.
    unfold dict_step. rewrite list_lookup_insert_eq by done. simpl.
    destruct (getitem _ k); [| done].
    by rewrite list_insert_insert_eq.
Qed.

Lemma getitem_app_fresh (pre post : odict) k :
  k ∉ keys pre -> getitem (pre ++ post) k = getitem post k.
Proof.
  induction pre as [|[k0 v0] pre IH]; [done |].
  intros [Hne Hk]%not_elem_of_cons. simpl in *.
  apply not_eq_sym, String.eqb_neq in Hne. rewrite Hne. by apply IH.
Qed.

Lemma setitem_app_fresh (pre post : odict) k v :
  k ∉ keys pre -> setitem (pre ++ post) k v = pre ++ setitem post k v.
Proof.
  induction pre as [|[k0 v0] pre IH]; [done |].
  intros [Hne Hk]%not_elem_of_cons. simpl in *.
  apply not_eq_sym, String.eqb_neq in Hne. rewrite Hne. by rewrite IH.
Qed.

Lemma update_where_split sel (pre post : odict) :
  NoDup (keys (pre ++ post)) ->
  update_where fn sel (pre ++ post) (keys post) =
    pre ++ transform_store fn sel post.
Proof.
  revert pre. induction post as [|[k v] post IH]; intros pre Hnd; [done |].
  assert (Hk : k ∉ keys pre).
  { unfold keys in *. rewrite fmap_app in Hnd.
    apply NoDup_app in Hnd as (_ & Hdis & _).
    intros Hin. apply (Hdis _ Hin). left. }
  assert (Hstep : forall v', update_where fn sel (pre ++ (k, v') :: post) (keys post)
                     = pre ++ (k, v') :: transform_store fn sel post).
  { intros v'. specialize (IH (pre ++ [(k, v')])).
    rewrite <- !app_assoc in IH. simpl in IH. apply IH.
    revert Hnd. unfold keys. by rewrite !fmap_app. }
  cbn [keys fmap list_fmap fst]. unfold update_where at 1. cbn [foldl].
  fold (update_where fn sel). unfold transform_store at 1.
  cbn [fmap list_fmap fst snd]. fold (transform_store fn sel post).
  destruct (sel k).
  - rewrite getitem_app_fresh by done. simpl. rewrite String.eqb_refl.
    rewrite setitem_app_fresh by done. simpl. rewrite String.eqb_refl.
    apply Hstep.
  - apply Hstep.
Qed.

Lemma update_where_keys sel d :
  NoDup (keys d) -> update_where fn sel d (keys d) = transform_store fn sel d.
Proof. intros Hnd. by apply (update_where_split sel []). Qed.

Lemma transform_store_all (m : mapping) :
  Mapping (transform_store fn (fun _ => true) (entries m))
          (is_dict m) (batch_size_of m) = map_values fn m.
Proof. done. Qed.

(** What one iteration of [apply_fn] does to the store. *)
Lemma apply_fn_key_store fields self h key :
  (apply_fn_key fn fields (self, h) key).1 =
    if skipped h fields key then self
    else match getitem self key with
         | Some v => setitem self key (fn v)
         | None => self
         end.
Proof.
  unfold apply_fn_key. destruct (skipped h fields key); [done |].
  destruct (getitem self key) as [v|]; [| done].
  rewrite getitem_setitem_eq.
  destruct (fn v); try done.
  destruct (h !! l) as [[items|m|]|]; try done. by destruct (is_dict m).
Qed.

Lemma apply_fn_loop_store fields sel ks :
  (forall h key, skipped h fields key = negb (sel key)) ->
  forall self h,
    (foldl (apply_fn_key fn fields) (self, h) ks).1 =
      update_where fn sel self ks.
Proof.
  intros Hsel. induction ks as [|k ks IH] using rev_ind; intros self h.
  - done.
  - rewrite foldl_app, update_where_snoc. simpl.
    destruct (foldl (apply_fn_key fn fields) (self, h) ks) as [s1 h1] eqn:E.
    rewrite apply_fn_key_store, Hsel.
    specialize (IH self h). rewrite E in IH. simpl in IH. rewrite IH.
    by destruct (sel k).
Qed.

Lemma apply_fn_store fields sel self h :
  (forall h key, skipped h fields key = negb (sel key)) ->
  NoDup (keys self) ->
  (apply_fn fn fields self h).1 = transform_store fn sel self.
Proof.
  intros Hsel Hnd. unfold apply_fn.
  rewrite (apply_fn_loop_store fields sel) by done.
  by apply update_where_keys.
Qed.

(** Keys that are all skipped leave the Report and the heap as they are. *)
Lemma apply_fn_all_skipped fields self h ks :
  (forall key, skipped h fields key = true) ->
  foldl (apply_fn_key fn fields) (self, h) ks = (self, h).
Proof.
  intros Hskip. induction ks as [|k ks IH] using rev_ind; [done |].
  rewrite foldl_app, IH. simpl. by rewrite Hskip.
Qed.

End apply_fn_loops.

(** One iteration that is not skipped: the field gets the image of its
    value, the list or dict that image refers to is updated in place, and
    no other object changes. *)
Lemma apply_fn_key_one_level fn fields self h key v :
  skipped h fields key = false ->
  getitem self key = Some v ->
  exists h',
    apply_fn_key fn fields (self, h) key = (setitem self key (fn v), h') /\
    (forall l items,
       fn v = VRef l -> h !! l = Some (OList items) ->
       h' = <[l := OList (fn <$> items)]> h) /\
    (forall l m,
       fn v = VRef l -> h !! l = Some (OMapping m) -> is_dict m = true ->
       NoDup (keys (entries m)) ->
       h' = <[l := OMapping (map_values fn m)]> h) /\
    (forall l', fn v <> VRef l' -> h' !! l' = h !! l') /\
    ((forall l, fn v <> VRef l) -> h' = h).
Proof.
  intros Hskip Hget. unfold apply_fn_key.
  rewrite Hskip, Hget, getitem_setitem_eq.
  destruct (fn v) as [| | | | | | |l] eqn:Efn;
    try (eexists; split_and!; [reflexivity | done | done | done | done]).
  destruct (h !! l) as [[items|m|]|] eqn:El.
  - eexists. split_and!; [reflexivity | | | |].
    + intros l0 items0 [= <-] Hl0. rewrite El in Hl0. injection Hl0 as <-.
      by apply list_loop.
    + intros l0 m0 [= <-] Hl0. by rewrite El in Hl0.
    + intros l' Hne. rewrite (list_loop _ _ _ _ El).
      apply list_lookup_insert_ne. congruence.
    + intros Hno. by destruct (Hno l).
  - destruct (is_dict m) eqn:Ed.
    + eexists. split_and!; [reflexivity | | | |].
      * intros l0 items0 [= <-] Hl0. by rewrite El in Hl0.
      * intros l0 m0 [= <-] Hl0 _ Hnd. rewrite El in Hl0.
        injection Hl0 as <-. rewrite (dict_loop _ _ _ _ _ El).
        by rewrite update_where_keys, transform_store_all.
      * intros l' Hne. rewrite (dict_loop _ _ _ _ _ El).
        apply list_lookup_insert_ne. congruence.
      * intros Hno. by destruct (Hno l).
    + eexists. split_and!; [reflexivity | | | done |done].
      * intros l0 items0 [= <-] Hl0. by rewrite El in Hl0.
      * intros l0 m0 [= <-] Hl0 Hd. rewrite El in Hl0.
        injection Hl0 as <-. congruence.
  - eexists. split_and!; [reflexivity | | | done | done].
    + intros l0 items0 [= <-] Hl0. by rewrite El in Hl0.
    + intros l0 m0 [= <-] Hl0. by rewrite El in Hl0.
  - eexists. split_and!; [reflexivity | | | done | done].
    + intros l0 items0 [= <-] Hl0. by rewrite El in Hl0.
    + intros l0 m0 [= <-] Hl0. by rewrite El in Hl0.
Qed.

(** C7 (counterexample).  With the empty tuple as [fields] the key [a] is
    not processed, although the collection is empty: the Report is
    returned unchanged, where the call without [fields] applies [fn]. *)
Lemma apply_fn_fields_counterexample :
  apply_fn incr (VTuple []) [("a", VInt 0)] [] = ([("a", VInt 0)], [])
  /\ apply_fn incr VNone [("a", VInt 0)] [] = ([("a", VInt 1)], [])
  /\ (apply_fn incr (VTuple []) [("a", VInt 0)] []).1
     <> transform_store incr (fun _ => true) [("a", VInt 0)].
Proof. split_and!; [reflexivity | reflexivity | discriminate]. Qed.

(** ** Cross-step accumulation *)

Section accumulation.
Implicit Types (self report : odict) (h : heap) (w : list string).

Lemma sentinel_eqb key : key <> sentinel -> String.eqb key sentinel = false.
Proof. by intros ?%String.eqb_neq. Qed.

Lemma accumulate_field_absent report self key w :
  key <> sentinel -> contains self key = false ->
  accumulate_field report self key w = (Ok self, w ++ [metrics_warning key]).
Proof.
  intros Hs Hc. unfold accumulate_field.
  by rewrite (sentinel_eqb _ Hs), Hc.
Qed.



(** Names that are absent, or the sentinel, only produce warnings. *)
Lemma accumulate_fields_absent report self field_list w :
  Forall (fun key => key = sentinel \/ contains self key = false) field_list ->
  foldM (accumulate_field report) field_list self w =
    (Ok self,
     w ++ (metrics_warning <$> filter (fun key => key <> sentinel) field_list)).
Proof.
  intros Hall. revert w.
  induction Hall as [|key field_list Hkey _ IH]; intros w.
  - simpl. by rewrite app_nil_r.
  - cbn [foldM]. rewrite filter_cons.
    destruct (decide (key <> sentinel)) as [Hs|Hs].
    + destruct Hkey as [?|Hc]; [done |].
      erewrite bind_ok; [| by apply accumulate_field_absent].
      rewrite IH. by rewrite fmap_cons, <- app_assoc.
    + apply dec_stable in Hs as ->.
      erewrite bind_ok; [apply IH | done].
Qed.

End accumulation.

(** The call of the claim's example, loss accumulation included. *)
Example accumulate_example :
  run (accumulate_tensor_fields_and_loss
         [("scores", VTensor (Tensor [4; 1] [f32 1 0; f32 2 0; f32 3 0; f32 4 0]));
          ("losses", VRef 0)]
         [("scores", VTensor (Tensor [2; 1] [f32 5 0; f32 6 0]));
          ("losses", VRef 1)]
         ["scores"; "__prediction_report__"; "missing_field"] tensor_losses)
  = (Ok ([("scores",
           VTensor (Tensor [6; 1]
                      [f32 1 0; f32 2 0; f32 3 0; f32 4 0; f32 5 0; f32 6 0]));
          ("losses", VRef 0)],
         [dict_of [("ce", scalar (f32 3 (-1)))];
          dict_of [("ce", scalar (f32 1 (-1))); ("extra", scalar (f32 9 0))]]),
     [metrics_warning "missing_field"; loss_warning "extra"]).
Proof. vm_compute. reflexivity. Qed.

(** One step of the loss loop: the key of the other report is absent from
    [self.losses], or present with a value that is not a tensor, or
    present with a tensor. *)
Lemma accumulate_loss_step_spec self lo ls (h : heap) i mo ms key value w :
  h !! lo = Some (OMapping mo) ->
  entries mo !! i = Some (key, value) ->
  getattr self "losses" = Ok (VRef ls) ->
  h !! ls = Some (OMapping ms) ->
  (contains (entries ms) key = false ->
   accumulate_loss_step self lo h i w = (Ok h, w ++ [loss_warning key]))
  /\ (forall x,
        getitem (entries ms) key = Some x -> is_tensor x = false ->
        accumulate_loss_step self lo h i w = (Ok h, w))
  /\ (forall a r,
        getitem (entries ms) key = Some (VTensor a) ->
        tensor_iadd a value = Ok r ->
        accumulate_loss_step self lo h i w =
          (Ok (<[ls := OMapping (Mapping (setitem (entries ms) key (VTensor r))
                                         (is_dict ms) (batch_size_of ms))]> h),
           w)).
Proof.
  intros Hlo Hi Hsl Hls. unfold accumulate_loss_step.
  rewrite Hlo, Hi, Hsl. unfold bind, lift, mapping_method. rewrite Hls.
  split_and!.
  - by intros ->.
  - intros x Hx Hnt. rewrite contains_getitem, Hx. cbn [negb].
    unfold __getitem__. rewrite Hx. by destruct x.
  - intros a r Ha Hr. rewrite contains_getitem, Ha. cbn [negb].
    unfold __getitem__. rewrite Ha. by rewrite Hr.
Qed.

(** C9.  With the scalar tensors [self.losses = {"ce": 1.0}] and
    [other.losses = {"ce": 0.5, "extra": 9.0}], loss accumulation
    succeeds, [self.losses["ce"]] becomes [1.5], the other report is
    unchanged, and [extra], absent from [self.losses], is skipped with one
    warning.  With plain Python floats in place of the tensors the same
    warning is logged and no value changes: only tensors are added to. *)
Theorem loss_accumulation :
  run (_accumulate_loss [("losses", VRef 0)] [("losses", VRef 1)]
         tensor_losses)
  = (Ok [dict_of [("ce", scalar (f32 3 (-1)))];
         dict_of [("ce", scalar (f32 1 (-1))); ("extra", scalar (f32 9 0))]],
     [loss_warning "extra"])
  /\ f32_add (f32 1 0) (f32 1 (-1)) = f32 3 (-1)
  /\ run (accumulate_tensor_fields_and_loss
            [("losses", VRef 0)] [("losses", VRef 1)] [] tensor_losses)
     = (Ok ([("losses", VRef 0)],
            [dict_of [("ce", scalar (f32 3 (-1)))];
             dict_of [("ce", scalar (f32 1 (-1)));
                      ("extra", scalar (f32 9 0))]]),
        [loss_warning "extra"])
  /\ run (_accumulate_loss [("losses", VRef 0)] [("losses", VRef 1)]
            float_losses)
     = (Ok float_losses, [loss_warning "extra"]).
Proof. split_and!; vm_compute; reflexivity. Qed.

(** ** Copy *)

Section copy_lemmas.
Variable deepcopy : heap -> value -> heap * value.
Implicit Types (self acc : odict) (h : heap).

Lemma copy_field_keys self acc h field :
  is_Some (getitem self field) ->
  field ∉ keys acc ->
  keys (copy_field deepcopy self (acc, h) field).1 = keys acc ++ [field].
Proof.
  intros [v Hv] Hk. unfold copy_field. rewrite Hv.
  destruct (deepcopy h v) as [h' v']. simpl.
  rewrite keys_setitem.
  destruct (contains acc field) eqn:E; [| done].
  by apply contains_elem_of in E.
Qed.

Lemma copy_loop_keys self ks : forall acc h,
  Forall (fun k => is_Some (getitem self k)) ks ->
  NoDup (keys acc ++ ks) ->
  keys (foldl (copy_field deepcopy self) (acc, h) ks).1 = keys acc ++ ks.
Proof.
  induction ks as [|k ks IH]; intros acc h Hall Hnd.
  - simpl. by rewrite app_nil_r.
  - apply Forall_cons in Hall as [Hk Hall]. cbn [foldl].
    assert (Hfresh : k ∉ keys acc).
    { apply NoDup_app in Hnd as (_ & Hdis & _).
      intros Hin. apply (Hdis _ Hin). left. }
    assert (Hkeys := copy_field_keys self acc h k Hk Hfresh).
    destruct (copy_field deepcopy self (acc, h) k) as [acc' h'].
    simpl in Hkeys. rewrite IH; [| done |].
    + by rewrite Hkeys, <- app_assoc.
    + by rewrite Hkeys, <- app_assoc.
Qed.

Lemma copy_loop_other self ks k : forall acc h,
  k ∉ ks ->
  getitem (foldl (copy_field deepcopy self) (acc, h) ks).1 k = getitem acc k.
Proof.
  induction ks as [|k0 ks IH]; intros acc h Hk; [done |].
  apply not_elem_of_cons in Hk as [Hne Hk]. cbn [foldl].
  unfold copy_field at 2. destruct (getitem self k0) as [v|]; [| by apply IH].
  destruct (deepcopy h v) as [h' v'].
  rewrite IH by done. by apply getitem_setitem_ne.
Qed.

Lemma getitem_is_Some_keys self k : k ∈ keys self -> is_Some (getitem self k).
Proof.
  intros Hk. destruct (getitem self k) eqn:E; [by eauto |].
  by apply getitem_None in E.
Qed.

(** The copy has the fields of the original, in the same order. *)
Lemma copy_fields self h :
  NoDup (keys self) -> fields (copy deepcopy self h).1 = fields self.
Proof.
  intros Hnd. unfold copy, fields.
  rewrite copy_loop_keys; [done | | done].
  apply Forall_forall. intros k Hk. by apply getitem_is_Some_keys.
Qed.

(** The first two fields are copied first, one after the other. *)
Lemma copy_first_two k1 v1 k2 v2 rest h :
  NoDup (keys ((k1, v1) :: (k2, v2) :: rest)) ->
  getitem (copy deepcopy ((k1, v1) :: (k2, v2) :: rest) h).1 k1
    = Some (deepcopy h v1).2
  /\ getitem (copy deepcopy ((k1, v1) :: (k2, v2) :: rest) h).1 k2
     = Some (deepcopy (deepcopy h v1).1 v2).2.
Proof.
  intros Hnd. simpl in Hnd.
  apply NoDup_cons in Hnd as [Hk1 Hnd]. apply NoDup_cons in Hnd as [Hk2 _].
  apply not_elem_of_cons in Hk1 as [Hne Hk1].
  apply String.eqb_neq in Hne.
  set (self := (k1, v1) :: (k2, v2) :: rest).
  assert (H1 : copy_field deepcopy self ([], h) k1
               = ([(k1, (deepcopy h v1).2)], (deepcopy h v1).1)).
  { unfold copy_field, self. cbn [getitem]. rewrite String.eqb_refl.
    by destruct (deepcopy h v1). }
  assert (H2 : forall x h1,
             copy_field deepcopy self ([(k1, x)], h1) k2
             = ([(k1, x); (k2, (deepcopy h1 v2).2)], (deepcopy h1 v2).1)).
  { intros x h1. unfold copy_field, self. cbn [getitem].
    rewrite Hne, String.eqb_refl.
    destruct (deepcopy h1 v2). cbn [setitem fst snd]. by rewrite Hne. }
  unfold copy, fields. change (keys self) with (k1 :: k2 :: keys rest).
  cbn [foldl]. rewrite H1, H2, !copy_loop_other by done.
  cbn [getitem]. by rewrite Hne, !String.eqb_refl.
Qed.

End copy_lemmas.

(** C10.  A Report constructed through the mapping merge path has
    [batch_size] and [warning_string] as its first two fields, assigned
    before any key of [batch], [model_output] or an extra argument is
    merged, among keys that are all distinct.  Both are therefore listed
    by [fields()], copied by [copy()] through [deepcopy] like every other
    field, and given to [fn] by an [apply_fn] without [fields]. *)
Theorem init_reserved_fields h batch model_output args self log :
  is_mapping h batch = true ->
  run (__init__ h batch model_output args) = (Ok self, log) ->
  exists bs ws rest,
    self = ("batch_size", bs) :: ("warning_string", ws) :: rest /\
    NoDup (keys self) /\
    fields self = "batch_size" :: "warning_string" :: keys rest /\
    (forall deepcopy h0,
       fields (copy deepcopy self h0).1 = fields self /\
       getitem (copy deepcopy self h0).1 "batch_size"
       = Some (deepcopy h0 bs).2 /\
       getitem (copy deepcopy self h0).1 "warning_string"
       = Some (deepcopy (deepcopy h0 bs).1 ws).2) /\
    (forall fn h0,
       fields (apply_fn fn VNone self h0).1 = fields self /\
       getitem (apply_fn fn VNone self h0).1 "batch_size" = Some (fn bs) /\
       getitem (apply_fn fn VNone self h0).1 "warning_string" = Some (fn ws)).
Proof.
  intros Hb Hrun.
  apply init_mapping_reserved in Hrun as Hres; [| done].
  destruct (reserved_first_shape _ Hres) as (bs & ws & rest & ->).
  destruct Hres as [_ Hnd].
  exists bs, ws, rest. split_and!; [done | done | done | |].
  - intros deepcopy h0. split; [by apply copy_fields |].
    by apply copy_first_two.
  - intros fn h0.
    rewrite (apply_fn_store fn VNone (fun _ => true)) by done.
    split_and!; [| reflexivity | reflexivity].
    unfold fields, keys, transform_store. rewrite <- list_fmap_compose.
    by apply list_fmap_ext.
Qed.

Lemma init_reserved_fields_witness :
  exists bs ws rest,
    [("batch_size", VInt 4); ("warning_string", VStr warning_template);
     ("a", VInt 1); ("b", VInt 2)]
    = ("batch_size", bs) :: ("warning_string", ws) :: rest /\
    getitem (apply_fn incr VNone
               [("batch_size", VInt 4);
                ("warning_string", VStr warning_template);
                ("a", VInt 1); ("b", VInt 2)] []).1 "batch_size"
    = Some (incr bs).
Proof.
  destruct (init_reserved_fields example_heap (VRef 0) (VRef 1) []
              [("batch_size", VInt 4); ("warning_string", VStr warning_template);
               ("a", VInt 1); ("b", VInt 2)] [] eq_refl eq_refl)
    as (bs & ws & rest & Hshape & _ & _ & _ & Happly).
  exists bs, ws, rest. split; [exact Hshape |].
  exact (proj1 (proj2 (Happly incr []))).
Defined.

(** * Further properties *)

(** ** Attributes and fields *)

Lemma collisions_keys (self its : odict) k :
  k ∈ collisions self its -> k ∈ keys its.
Proof.
  revert self. induction its as [|[k0 v0] its IH]; intros self; [done |].
  cbn [collisions fst snd]. intros [Hk|Hk]%elem_of_app.
  - destruct (contains self k0); [| by apply elem_of_nil in Hk].
    apply list_elem_of_singleton in Hk as ->. left.
  - right. by eapply IH.
Qed.

(** X1.  The collision policy of the merge, for mapping sources none of
    which has a key [warning_string].  Construction succeeds.  The value
    of a key is that of its last item in the last source that has it: an
    extra argument before [model_output], [model_output] before [batch],
    and the value assigned by [__init__] for [batch_size] and
    [warning_string] when no source has the key.  The warnings are, in
    order, one for each item of an extra argument whose key is in the
    Report when the item is merged, each naming that key; a key that only
    [batch] and [model_output] share gives none. *)
Theorem init_collision_policy h batch model_output args mb mm ms bs :
  as_mapping h batch = Some mb ->
  as_mapping h model_output = Some mm ->
  mappings h args ms ->
  batch_size_of mb = Some bs ->
  Forall (fun m => "warning_string" ∉ keys (entries m)) (mb :: mm :: ms) ->
  let merged := assign_all (initial_store bs) (entries mb ++ entries mm) in
  let extra := concat (entries <$> ms) in
  let self := assign_all merged extra in
  let log := collision_warning <$> collisions merged extra in
  run (__init__ h batch model_output args) = (Ok self, log)
  /\ (forall k,
        getitem self k =
          match last_binding extra k with
          | Some v => Some v
          | None =>
              match last_binding (entries mm) k with
              | Some v => Some v
              | None =>
                  match last_binding (entries mb) k with
                  | Some v => Some v
                  | None => getitem (initial_store bs) k
                  end
              end
          end)
  /\ (forall k, k ∈ keys extra -> contains merged k = true ->
                collision_warning k ∈ log)
  /\ (forall msg, msg ∈ log ->
                  exists k, msg = collision_warning k /\ k ∈ keys extra)
  /\ (args = [] -> log = []).
Proof.
  intros Hb Hmo Hargs Hbs Hk merged extra self log.
  assert (Hm : is_mapping h batch = true) by (unfold is_mapping; by rewrite Hb).
  split_and!.
  - rewrite (init_mapping_path _ _ _ _ Hm).
    destruct model_output; try done; by apply merge_sources_spec.
  - intros k. unfold self, merged.
    rewrite !getitem_assign_all, last_binding_app.
    by destruct (last_binding extra k), (last_binding (entries mm) k).
  - intros k Hin Hc. apply list_elem_of_fmap. exists k. split; [done |].
    by apply elem_of_collisions_present.
  - intros msg (k & -> & Hin)%list_elem_of_fmap. exists k. split; [done |].
    by eapply collisions_keys.
  - intros ->. apply Forall2_nil_inv_l in Hargs. by subst ms log extra.
Qed.

Lemma init_collision_policy_witness :
  run (__init__ example_heap (VRef 0) (VRef 1) [VRef 2])
  = (Ok [("batch_size", VInt 4); ("warning_string", VStr warning_template);
         ("a", VInt 3); ("b", VInt 2)],
     [collision_warning "a"]).
Proof.
  apply (proj1 (init_collision_policy example_heap (VRef 0) (VRef 1) [VRef 2]
                  (Mapping [("a", VInt 1)] true (Some (VInt 4)))
                  (Mapping [("b", VInt 2)] true None)
                  [Mapping [("a", VInt 3)] true None] (VInt 4)
                  eq_refl eq_refl
                  ltac:(repeat constructor) eq_refl
                  ltac:(repeat constructor; apply (bool_decide_unpack _);
                        vm_compute; exact I))).
Defined.

(** X2.  The setter of the property [batch_size] is never reached:
    [report.batch_size = v] writes the key [batch_size].  The accessor
    then returns [v] when the Report has no field [_batch_size], and the
    value of that field, not [v], when it has one. *)
Theorem batch_size_assignment self v :
  getitem (setattr self "batch_size" v) "batch_size" = Some v
  /\ (getitem self "_batch_size" = None ->
      get_batch_size (setattr self "batch_size" v) = Ok v)
  /\ (forall old,
        getitem self "_batch_size" = Some old ->
        get_batch_size (setattr self "batch_size" v) = Ok old).
Proof.
  unfold setattr, __setattr__. split_and!.
  - apply getitem_setitem_eq.
  - intros Hn. rewrite get_batch_size_spec, getitem_setitem_eq.
    by rewrite getitem_setitem_ne, Hn.
  - intros old Ho. rewrite get_batch_size_spec.
    by rewrite getitem_setitem_ne, Ho.
Qed.

Lemma batch_size_assignment_witness :
  get_batch_size (setattr [("a", VInt 0)] "batch_size" (VInt 8)) = Ok (VInt 8)
  /\ get_batch_size (setattr [("_batch_size", VInt 2)] "batch_size" (VInt 8))
     = Ok (VInt 2).
Proof.
  split.
  - apply (proj1 (proj2 (batch_size_assignment [("a", VInt 0)] (VInt 8)))
             eq_refl).
  - apply (proj2 (proj2 (batch_size_assignment [("_batch_size", VInt 2)]
                           (VInt 8))) (VInt 2) eq_refl).
Defined.

(** X3.  Assigning an attribute never reorders the fields: an existing
    field keeps its place, a new one becomes the last field, every other
    field keeps its value, and distinct keys stay distinct. *)
Theorem setattr_fields self x v :
  fields (setattr self x v)
  = (if contains self x then fields self else fields self ++ [x])
  /\ (forall k, k <> x ->
                getitem (setattr self x v) k = getitem self k)
  /\ (NoDup (fields self) -> NoDup (fields (setattr self x v))).
Proof.
  unfold fields, setattr, __setattr__. split_and!.
  - apply keys_setitem.
  - intros k Hk. by apply getitem_setitem_ne.
  - apply NoDup_setitem.
Qed.

Lemma setattr_fields_witness :
  fields (setattr [("a", VInt 0); ("b", VInt 1)] "a" (VInt 5)) = ["a"; "b"]
  /\ getitem (setattr [("a", VInt 0); ("b", VInt 1)] "a" (VInt 5)) "b"
     = Some (VInt 1).
Proof.
  split.
  - exact (proj1 (setattr_fields [("a", VInt 0); ("b", VInt 1)] "a" (VInt 5))).
  - apply (proj1 (proj2 (setattr_fields [("a", VInt 0); ("b", VInt 1)] "a"
                           (VInt 5)))).
    discriminate.
Defined.

(** ** Construction: errors and defaults *)

Section construction_errors.
Implicit Types (h : heap) (batch model_output : value) (args : list value).

Lemma lookup_fresh (h : heap) (o : object) : (h ++ [o]) !! length h = Some o.
Proof. by rewrite lookup_app_r, Nat.sub_diag by lia. Qed.

Lemma lookup_app_old (h : heap) (o : object) l :
  l < length h -> (h ++ [o]) !! l = h !! l.
Proof. intros Hl. by rewrite lookup_app_l. Qed.

Lemma is_mapping_fresh h m :
  is_mapping (h ++ [OMapping m]) (VRef (length h)) = true.
Proof. unfold is_mapping, as_mapping. by rewrite lookup_fresh. Qed.

Lemma as_mapping_fresh h m :
  as_mapping (h ++ [OMapping m]) (VRef (length h)) = Some m.
Proof. unfold as_mapping. by rewrite lookup_fresh. Qed.

Lemma is_mapping_app_false h o v :
  in_heap h v -> is_mapping h v = false -> is_mapping (h ++ [o]) v = false.
Proof.
  unfold is_mapping, as_mapping. destruct v; try done. simpl.
  intros Hl. by rewrite lookup_app_old.
Qed.

Lemma is_tuple_or_list_app_mapping h m v :
  is_tuple_or_list (h ++ [OMapping m]) v = is_tuple_or_list h v.
Proof.
  destruct v; try done. simpl.
  destruct (h !! l) as [o|] eqn:E.
  - by rewrite (lookup_app_l_Some _ _ _ _ E).
  - apply lookup_ge_None in E. rewrite lookup_app_r by done.
    by destruct (l - length h) as [|[|n]].
Qed.

Lemma format_value_app_mapping h m v a :
  format_value (h ++ [OMapping m]) v a = format_value h v a.
Proof.
  destruct v; try done. simpl.
  destruct (h !! l) as [o|] eqn:E.
  - by rewrite (lookup_app_l_Some _ _ _ _ E).
  - apply lookup_ge_None in E. rewrite lookup_app_r by done.
    by destruct (l - length h) as [|[|n]].
Qed.

Lemma check_all_mappings h n (l : list value) :
  Forall (fun a => is_mapping h a = true) l ->
  foldR (fun _ (ia : nat * value) =>
           if is_mapping h ia.2 then Ok tt else Raise (ArgTypeError ia.1))
        (enumerate_from n l) tt = Ok tt.
Proof.
  intros Hall. revert n. induction Hall as [|a l Ha _ IH]; intros n; [done |].
  simpl. rewrite Ha. simpl. apply IH.
Qed.

Lemma check_first_bad h n (pre : list value) bad post :
  Forall (fun a => is_mapping h a = true) pre ->
  is_mapping h bad = false ->
  foldR (fun _ (ia : nat * value) =>
           if is_mapping h ia.2 then Ok tt else Raise (ArgTypeError ia.1))
        (enumerate_from n (pre ++ bad :: post)) tt
  = Raise (ArgTypeError (n + length pre)).
Proof.
  intros Hall Hbad. revert n. induction Hall as [|a l Ha _ IH]; intros n.
  - simpl. by rewrite Hbad, Nat.add_0_r.
  - simpl. rewrite Ha. simpl. rewrite IH. do 2 f_equal. lia.
Qed.

Lemma merge_sources_bad h batch model_output args e w :
  check_mappings h (batch :: model_output :: args) = Raise e ->
  merge_sources h batch model_output args w = (Raise e, w).
Proof.
  intros Hc. unfold merge_sources. cbn [app]. by rewrite Hc.
Qed.

Lemma merge_sources_no_batch_size h batch model_output args mb w :
  check_mappings h (batch :: model_output :: args) = Ok tt ->
  as_mapping h batch = Some mb -> batch_size_of mb = None ->
  merge_sources h batch model_output args w
  = (Raise (AttributeError "get_batch_size"), w).
Proof.
  intros Hc Hb Hbs. unfold merge_sources, call_get_batch_size. cbn [app].
  by rewrite Hc, Hb, Hbs.
Qed.

End construction_errors.

(** X4.  With a mapping as [batch], an argument that is not a mapping
    makes the construction raise the [TypeError] that names the position of
    the first such argument, [1] for [model_output] and [2] onwards for the
    extra arguments.  The check comes first: nothing is merged, no warning
    is emitted, and [batch.get_batch_size()] is not called. *)
Theorem init_rejects_non_mapping h batch model_output args :
  is_mapping h batch = true ->
  (model_output <> VNone -> is_mapping h model_output = false ->
   run (__init__ h batch model_output args) = (Raise (ArgTypeError 1), []))
  /\ (forall pre bad post,
        model_output = VNone \/ is_mapping h model_output = true ->
        args = pre ++ bad :: post ->
        Forall (fun a => is_mapping h a = true) pre ->
        in_heap h bad -> is_mapping h bad = false ->
        run (__init__ h batch model_output args)
        = (Raise (ArgTypeError (2 + length pre)), [])).
Proof.
  intros Hb. split.
  - intros Hne Hmo. rewrite (init_mapping_path _ _ _ _ Hb). unfold run.
    assert (Hc : check_mappings h (batch :: model_output :: args)
                 = Raise (ArgTypeError 1)).
    { apply (check_first_bad h 0 [batch] model_output args); [| done].
      by constructor. }
    destruct model_output; try done; by apply merge_sources_bad.
  - intros pre bad post Hmo -> Hpre Hin Hbad.
    rewrite (init_mapping_path _ _ _ _ Hb). unfold run.
    destruct Hmo as [-> | Hmo].
    + apply merge_sources_bad.
      apply (check_first_bad _ 0 (batch :: VRef (length h) :: pre) bad post).
      * repeat constructor; [by apply is_mapping_app | apply is_mapping_fresh |].
        eapply Forall_impl; [exact Hpre |]. intros a. apply is_mapping_app.
      * by apply is_mapping_app_false.
    + assert (Hc : check_mappings h (batch :: model_output :: pre ++ bad :: post)
                   = Raise (ArgTypeError (2 + length pre))).
      { apply (check_first_bad h 0 (batch :: model_output :: pre) bad post);
          [| done]. by repeat constructor. }
      destruct model_output; try done; by apply merge_sources_bad.
Qed.

Lemma init_rejects_non_mapping_witness :
  run (__init__ example_heap (VRef 0) (VInt 3) []) = (Raise (ArgTypeError 1), [])
  /\ run (__init__ example_heap (VRef 0) VNone [VRef 1; VStr "x"; VRef 2])
     = (Raise (ArgTypeError 3), []).
Proof.
  split.
  - apply (proj1 (init_rejects_non_mapping example_heap (VRef 0) (VInt 3) []
                    eq_refl)); [discriminate | reflexivity].
  - apply (proj2 (init_rejects_non_mapping example_heap (VRef 0) VNone
                    [VRef 1; VStr "x"; VRef 2] eq_refl)
             [VRef 1] (VStr "x") [VRef 2]).
    + by left.
    + reflexivity.
    + repeat constructor.
    + exact I.
    + reflexivity.
Defined.

(** X5.  When every argument is a mapping but [batch] has no
    [get_batch_size] method, construction raises [AttributeError] before
    anything is merged and without a warning. *)
Theorem init_requires_get_batch_size h batch model_output args mb :
  as_mapping h batch = Some mb ->
  batch_size_of mb = None ->
  model_output = VNone \/ is_mapping h model_output = true ->
  Forall (fun a => is_mapping h a = true) args ->
  run (__init__ h batch model_output args)
  = (Raise (AttributeError "get_batch_size"), []).
Proof.
  intros Hb Hbs Hmo Hargs.
  assert (Hm : is_mapping h batch = true) by (unfold is_mapping; by rewrite Hb).
  rewrite (init_mapping_path _ _ _ _ Hm). unfold run.
  destruct Hmo as [-> | Hmo].
  - eapply merge_sources_no_batch_size;
      [| by apply as_mapping_app | done].
    apply check_all_mappings.
    repeat constructor; [by apply is_mapping_app | apply is_mapping_fresh |].
    eapply Forall_impl; [exact Hargs |]. intros a. apply is_mapping_app.
  - assert (Hc : check_mappings h (batch :: model_output :: args) = Ok tt).
    { apply check_all_mappings. by repeat constructor. }
    destruct model_output; try done;
      by eapply merge_sources_no_batch_size.
Qed.

Lemma init_requires_get_batch_size_witness :
  run (__init__ example_heap (VRef 1) VNone [VRef 2])
  = (Raise (AttributeError "get_batch_size"), []).
Proof.
  apply (init_requires_get_batch_size example_heap (VRef 1) VNone [VRef 2]
           (Mapping [("b", VInt 2)] true None)).
  - reflexivity.
  - reflexivity.
  - by left.
  - repeat constructor.
Defined.

(** X6.  A [batch] that is not a mapping and whose first element is not a
    tuple or list starting with a string (a string, a tensor, a list of
    numbers, a list of pairs keyed by numbers) is not loaded as pairs: it
    is rejected with the [TypeError] naming position [0]. *)
Theorem init_rejects_non_pairs h batch first model_output args :
  is_mapping h batch = false ->
  subscript h batch 0 = Ok first ->
  is_tuple_or_list h first = false
  \/ (exists k, subscript h first 0 = Ok k /\ is_str k = false) ->
  run (__init__ h batch model_output args) = (Raise (ArgTypeError 0), []).
Proof.
  intros Hb Hfirst Hshape.
  assert (Hgen : forall h' mo,
             is_mapping h' batch = false ->
             subscript h' batch 0 = Ok first ->
             is_tuple_or_list h' first = false
             \/ (exists k, subscript h' first 0 = Ok k /\ is_str k = false) ->
             (let* (loaded, self) := lift (_check_and_load_tuple h' [] batch) in
              if (loaded : bool) then ret self
              else
                let all_args := [batch; mo] ++ args in
                let* _ := lift (check_mappings h' all_args) in
                let* bs := lift (call_get_batch_size h' batch) in
                let self := setattr self "batch_size" bs in
                let self := setattr self "warning_string"
                              (VStr warning_template) in
                foldM (merge_arg h') (enumerate all_args) self) []
             = (Raise (ArgTypeError 0), [])).
  { intros h' mo Hb' Hf' Hs'.
    assert (Hload : _check_and_load_tuple h' [] batch = Ok (false, [])).
    { unfold _check_and_load_tuple. rewrite Hb', Hf'. cbn [rbind].
      destruct Hs' as [-> | (k & Hk & Hstr)]; [done |].
      destruct (is_tuple_or_list h' first); [| done].
      rewrite Hk. cbn [rbind]. by rewrite Hstr. }
    rewrite Hload. unfold bind at 1. unfold lift at 1.
    unfold check_mappings, enumerate. cbn [app enumerate_from foldR].
    cbn [snd]. by rewrite Hb'. }
  unfold run, __init__.
  assert (Hnm : forall o, is_mapping (h ++ [o]) batch = false).
  { intros o. destruct batch; try done.
    unfold is_mapping, as_mapping in *. simpl in Hfirst.
    destruct (h !! l) as [x|] eqn:E; [| done].
    rewrite (lookup_app_l_Some _ _ _ _ E). by destruct x. }
  destruct batch; try done;
    destruct model_output;
    first [ by apply Hgen
          | apply Hgen;
            [ by apply Hnm
            | by apply subscript_app
            | destruct Hshape as [Hs | (k & Hk & Hstr)];
              [ left; by rewrite is_tuple_or_list_app_mapping
              | right; exists k; split; [by apply subscript_app | done] ] ] ].
Qed.

Lemma init_rejects_non_pairs_witness :
  run (__init__ [] (VStr "abc") VNone []) = (Raise (ArgTypeError 0), [])
  /\ run (__init__ [] (VTuple [VTuple [VInt 1; VInt 2]]) VNone [])
     = (Raise (ArgTypeError 0), []).
Proof.
  split.
  - apply (init_rejects_non_pairs [] (VStr "abc") (VStr "a") VNone []);
      [reflexivity | reflexivity | by left].
  - apply (init_rejects_non_pairs [] (VTuple [VTuple [VInt 1; VInt 2]])
             (VTuple [VInt 1; VInt 2]) VNone []);
      [reflexivity | reflexivity |].
    right. exists (VInt 1). split; reflexivity.
Defined.

(** X7.  An empty tuple or list is not an empty Report: [batch[0]] raises
    [IndexError].  So does a sequence whose first element is an empty
    tuple or list. *)
Theorem init_empty_sequence h batch model_output args :
  (iterate h batch = Ok [] ->
   run (__init__ h batch model_output args) = (Raise IndexError, []))
  /\ (forall first rest,
        iterate h batch = Ok (first :: rest) ->
        iterate h first = Ok [] ->
        run (__init__ h batch model_output args) = (Raise IndexError, [])).
Proof.
  assert (Hsub : forall h' v, iterate h' v = Ok [] ->
                              subscript h' v 0 = Raise IndexError).
  { intros h' v. destruct v; simpl; try done.
    - by intros [= ->].
    - destruct (h' !! l) as [[]|]; try done. by intros [= ->]. }
  assert (Htl : forall h' v items, iterate h' v = Ok items ->
                                   is_tuple_or_list h' v = true).
  { intros h' v items. destruct v; simpl; try done.
    by destruct (h' !! l) as [[]|]. }
  assert (Hempty : forall h', iterate h' batch = Ok [] ->
             _check_and_load_tuple h' [] batch = Raise IndexError).
  { intros h' Hit. unfold _check_and_load_tuple.
    by rewrite (iterate_not_mapping _ _ _ Hit), (Hsub _ _ Hit). }
  assert (Hfirst : forall h' first rest,
             iterate h' batch = Ok (first :: rest) ->
             iterate h' first = Ok [] ->
             _check_and_load_tuple h' [] batch = Raise IndexError).
  { intros h' first rest Hit Hf. unfold _check_and_load_tuple.
    rewrite (iterate_not_mapping _ _ _ Hit).
    rewrite (iterate_subscript _ _ _ 0 first Hit) by done. cbn [rbind].
    by rewrite (Htl _ _ _ Hf), (Hsub _ _ Hf). }
  split.
  - intros Hit. unfold run, __init__.
    destruct batch; try done; destruct model_output;
      (rewrite Hempty; [done | by eauto using iterate_app]).
  - intros first rest Hit Hf. unfold run, __init__.
    destruct batch; try done; destruct model_output;
      (erewrite Hfirst; [done | by eauto using iterate_app
                              | by eauto using iterate_app]).
Qed.

Lemma init_empty_sequence_witness :
  run (__init__ [OList []] (VRef 0) VNone []) = (Raise IndexError, [])
  /\ run (__init__ [] (VTuple [VTuple []]) VNone []) = (Raise IndexError, []).
Proof.
  split.
  - apply (proj1 (init_empty_sequence [OList []] (VRef 0) VNone [])).
    reflexivity.
  - apply (proj2 (init_empty_sequence [] (VTuple [VTuple []]) VNone [])
             (VTuple []) []); reflexivity.
Defined.

Section heap_independence.
Implicit Types (h : heap) (self : odict) (w : list string).

Lemma bind_ext {A B} (m m' : M A) (f f' : A -> M B) w :
  m w = m' w -> (forall a w', f a w' = f' a w') ->
  bind m f w = bind m' f' w.
Proof.
  intros Hm Hf. unfold bind. rewrite Hm.
  destruct (m' w) as [[a|e|] w']; [apply Hf | done | done].
Qed.

Lemma foldM_ext {A B} (f g : A -> B -> M A) (l : list B) :
  (forall a b w, f a b w = g a b w) ->
  forall a w, foldM f l a w = foldM g l a w.
Proof.
  intros Hfg. induction l as [|b l IH]; intros a w; [done |].
  simpl. by apply bind_ext.
Qed.

(** The merge reads the heap only to find the items of its arguments and
    to format a warning: the dict allocated for an omitted [model_output]
    changes neither. *)
Lemma merge_item_app_mapping h m idx self kv w :
  merge_item (h ++ [OMapping m]) idx self kv w = merge_item h idx self kv w.
Proof.
  unfold merge_item. apply bind_ext; [| done].
  destruct (contains self kv.1 && (2 <=? idx)%nat); [| done].
  apply bind_ext; [done |]. intros ws w'.
  apply bind_ext; [| done]. unfold lift.
  by rewrite format_value_app_mapping.
Qed.

Lemma merge_arg_same_entries h1 h2 a1 a2 m1 m2 idx self w :
  as_mapping h1 a1 = Some m1 ->
  as_mapping h2 a2 = Some m2 ->
  entries m1 = entries m2 ->
  (forall i s kv w', merge_item h1 i s kv w' = merge_item h2 i s kv w') ->
  merge_arg h1 self (idx, a1) w = merge_arg h2 self (idx, a2) w.
Proof.
  intros H1 H2 He Hitem.
  rewrite (merge_arg_mapping _ _ _ _ _ H1), (merge_arg_mapping _ _ _ _ _ H2).
  rewrite He. apply foldM_ext. intros s kv w'. apply Hitem.
Qed.

Lemma merge_args_app_mapping h m n (args : list value) self w :
  Forall (fun a => is_mapping h a = true) args ->
  foldM (merge_arg (h ++ [OMapping m])) (enumerate_from n args) self w
  = foldM (merge_arg h) (enumerate_from n args) self w.
Proof.
  intros Hall. revert n self w.
  induction Hall as [|a args Ha _ IH]; intros n self w; [done |].
  cbn [enumerate_from foldM]. apply bind_ext; [| intros s w'; apply IH].
  unfold is_mapping in Ha. destruct (as_mapping h a) as [ma|] eqn:E; [| done].
  eapply merge_arg_same_entries;
    [by apply as_mapping_app | done | done |].
  intros i s kv w'. apply merge_item_app_mapping.
Qed.

Lemma not_elem_of_keys_concat k (ms : list mapping) :
  Forall (fun m => k ∉ keys (entries m)) ms ->
  k ∉ keys (concat (entries <$> ms)).
Proof.
  induction 1 as [|m ms Hm _ IH]; [apply not_elem_of_nil |].
  cbn [fmap list_fmap concat]. unfold keys in *.
  rewrite fmap_app. by apply not_elem_of_app.
Qed.

End heap_independence.

(** X8.  Leaving [model_output] out is the same as passing an empty dict:
    for a mapping [batch] and mapping extra arguments, both constructions
    give the same Report, the same warnings and the same exception. *)
Theorem init_default_model_output h batch args l m0 :
  is_mapping h batch = true ->
  Forall (fun a => is_mapping h a = true) args ->
  h !! l = Some (OMapping m0) ->
  entries m0 = [] ->
  run (__init__ h batch VNone args) = run (__init__ h batch (VRef l) args).
Proof.
  intros Hb Hargs Hl He.
  rewrite !(init_mapping_path _ _ _ _ Hb). unfold run, merge_sources.
  cbn [app]. unfold check_mappings, enumerate.
  rewrite (check_all_mappings (h ++ [OMapping empty_dict]) 0).
  2:{ repeat constructor; [by apply is_mapping_app | apply is_mapping_fresh |].
      eapply Forall_impl; [exact Hargs |]. intros a. apply is_mapping_app. }
  rewrite (check_all_mappings h 0).
  2:{ repeat constructor; [done | | done].
      unfold is_mapping, as_mapping. by rewrite Hl. }
  unfold is_mapping in Hb.
  destruct (as_mapping h batch) as [mb|] eqn:Eb; [| done].
  unfold call_get_batch_size. rewrite (as_mapping_app _ _ _ _ Eb), Eb.
  unfold bind at 1 3. unfold lift at 1 3.
  apply bind_ext; [done |]. intros bs w.
  cbn [enumerate_from foldM].
  apply bind_ext.
  { eapply merge_arg_same_entries;
      [by apply as_mapping_app | done | done |].
    intros i s kv w'. apply merge_item_app_mapping. }
  intros s1 w1. apply bind_ext.
  { eapply merge_arg_same_entries; [apply as_mapping_fresh | | by rewrite He |].
    - unfold as_mapping. by rewrite Hl.
    - intros i s kv w'. apply merge_item_app_mapping. }
  intros s2 w2. by apply merge_args_app_mapping.
Qed.

Lemma init_default_model_output_witness :
  run (__init__ clobbered_heap (VRef 0) VNone [VRef 2])
  = run (__init__ clobbered_heap (VRef 0) (VRef 1) [VRef 2]).
Proof.
  apply (init_default_model_output clobbered_heap (VRef 0) [VRef 2] 1
           (Mapping [] true None)).
  - reflexivity.
  - repeat constructor.
  - reflexivity.
  - reflexivity.
Defined.

(** X9.  The batch size captured at construction is what the accessor
    returns afterwards: when the sources are mappings none of which has a
    key [batch_size], [_batch_size] or [warning_string], construction
    succeeds and [get_batch_size()] on the Report returns the value
    [batch.get_batch_size()] returned. *)
Theorem get_batch_size_after_init h batch model_output args mb mm ms bs :
  as_mapping h batch = Some mb ->
  as_mapping h model_output = Some mm ->
  mappings h args ms ->
  batch_size_of mb = Some bs ->
  Forall (fun m => "warning_string" ∉ keys (entries m)) (mb :: mm :: ms) ->
  Forall (fun m => "batch_size" ∉ keys (entries m)) (mb :: mm :: ms) ->
  Forall (fun m => "_batch_size" ∉ keys (entries m)) (mb :: mm :: ms) ->
  exists self log,
    run (__init__ h batch model_output args) = (Ok self, log)
    /\ get_batch_size self = Ok bs.
Proof.
  intros Hb Hmo Hargs Hbs Hws Hk1 Hk2.
  assert (Hm : is_mapping h batch = true) by (unfold is_mapping; by rewrite Hb).
  eexists _, _. split.
  - rewrite (init_mapping_path _ _ _ _ Hm).
    destruct model_output; try done; by apply merge_sources_spec.
  - assert (Hout : forall k,
               Forall (fun m => k ∉ keys (entries m)) (mb :: mm :: ms) ->
               forall d,
                 getitem (assign_all (assign_all d (entries mb ++ entries mm))
                            (concat (entries <$> ms))) k
                 = getitem d k).
    { intros k Hk d.
      apply Forall_cons in Hk as [Hkb Hk]. apply Forall_cons in Hk as [Hkm Hk].
      rewrite !getitem_assign_all_other; [done | |].
      - unfold keys. rewrite fmap_app. by apply not_elem_of_app.
      - by apply not_elem_of_keys_concat. }
    rewrite get_batch_size_spec, !Hout by done. reflexivity.
Qed.

Lemma get_batch_size_after_init_witness :
  exists self log,
    run (__init__ example_heap (VRef 0) (VRef 1) [VRef 2]) = (Ok self, log)
    /\ get_batch_size self = Ok (VInt 4).
Proof.
  apply (get_batch_size_after_init example_heap (VRef 0) (VRef 1) [VRef 2]
           (Mapping [("a", VInt 1)] true (Some (VInt 4)))
           (Mapping [("b", VInt 2)] true None)
           [Mapping [("a", VInt 3)] true None] (VInt 4)).
  - reflexivity.
  - reflexivity.
  - repeat constructor.
  - reflexivity.
  - repeat constructor; apply (bool_decide_unpack _); vm_compute; exact I.
  - repeat constructor; apply (bool_decide_unpack _); vm_compute; exact I.
  - repeat constructor; apply (bool_decide_unpack _); vm_compute; exact I.
Defined.

(** X10.  Construction from a [batch] with [get_batch_size] and at most a
    [model_output], both mappings, cannot fail and never warns, whatever
    their keys: the Report holds [batch_size], [warning_string] and the
    items of [batch] then of [model_output] assigned in order, so
    [model_output] wins on a shared key. *)
Theorem init_two_sources h batch model_output mb bs :
  as_mapping h batch = Some mb ->
  batch_size_of mb = Some bs ->
  (model_output = VNone ->
   run (__init__ h batch model_output [])
   = (Ok (assign_all (initial_store bs) (entries mb)), []))
  /\ (forall mm,
        as_mapping h model_output = Some mm ->
        run (__init__ h batch model_output [])
        = (Ok (assign_all (initial_store bs) (entries mb ++ entries mm)), [])
        /\ forall k v, last_binding (entries mm) k = Some v ->
             getitem (assign_all (initial_store bs)
                        (entries mb ++ entries mm)) k = Some v).
Proof.
  intros Hb Hbs.
  assert (Hm : is_mapping h batch = true) by (unfold is_mapping; by rewrite Hb).
  split.
  - intros ->. rewrite (init_mapping_path _ _ _ _ Hm).
    rewrite (merge_two_sources _ _ _ mb empty_dict bs);
      [| by apply as_mapping_app | apply as_mapping_fresh | done].
    by rewrite app_nil_r.
  - intros mm Hmo. split.
    + rewrite (init_mapping_path _ _ _ _ Hm).
      destruct model_output; try done; by apply merge_two_sources.
    + intros k v Hv. by rewrite getitem_assign_all, last_binding_app, Hv.
Qed.

Lemma init_two_sources_witness :
  run (__init__ clobbered_heap (VRef 0) VNone [])
  = (Ok [("batch_size", VInt 4); ("warning_string", VInt 1); ("a", VInt 0)],
     []).
Proof.
  apply (proj1 (init_two_sources clobbered_heap (VRef 0) VNone
                  (Mapping [("warning_string", VInt 1); ("a", VInt 0)] true
                     (Some (VInt 4)))
                  (VInt 4) eq_refl eq_refl) eq_refl).
Defined.

(** ** Transform application: invariants *)

Section apply_fn_invariants.
Variable fn : value -> value.
Implicit Types (h : heap) (self d : odict) (fields : value).

Lemma setitem_same d k v : getitem d k = Some v -> setitem d k v = d.
Proof.
  induction d as [|[k0 x] d IH]; [done |]. simpl.
  destruct (String.eqb k0 k) eqn:E.
  - by intros [= ->].
  - intros Hv. by rewrite IH.
Qed.

Lemma keys_setitem_present d k v x :
  getitem d k = Some x -> keys (setitem d k v) = keys d.
Proof. intros Hx. by rewrite keys_setitem, contains_getitem, Hx. Qed.

Lemma apply_fn_key_keys fields self h key :
  keys (apply_fn_key fn fields (self, h) key).1 = keys self.
Proof.
  rewrite apply_fn_key_store. destruct (skipped h fields key); [done |].
  destruct (getitem self key) eqn:E; [| done].
  by eapply keys_setitem_present.
Qed.

Lemma apply_fn_keys fields self h :
  keys (apply_fn fn fields self h).1 = keys self.
Proof.
  unfold apply_fn.
  enough (Hgen : forall ks s h0,
             keys (foldl (apply_fn_key fn fields) (s, h0) ks).1 = keys s)
    by apply Hgen.
  induction ks as [|k ks IH] using rev_ind; intros s h0; [done |].
  rewrite foldl_app. simpl.
  destruct (foldl (apply_fn_key fn fields) (s, h0) ks) as [s1 h1] eqn:E.
  rewrite apply_fn_key_keys. specialize (IH s h0). by rewrite E in IH.
Qed.

Lemma same_shape_refl (o : object) : same_shape o o.
Proof. by destruct o. Qed.

Lemma same_shape_trans (o1 o2 o3 : object) :
  same_shape o1 o2 -> same_shape o2 o3 -> same_shape o1 o3.
Proof.
  destruct o1, o2, o3; simpl; try done.
  - congruence.
  - intros (? & ? & ?) (? & ? & ?). split_and!; congruence.
Qed.

Lemma same_shape_heap_refl h : Forall2 same_shape h h.
Proof. induction h; constructor; [apply same_shape_refl | done]. Qed.

(** Replacing an object by one of the same shape. *)
Lemma same_shape_insert h h' l o' o'' :
  Forall2 same_shape h h' ->
  h' !! l = Some o' -> same_shape o' o'' ->
  Forall2 same_shape h (<[l := o'']> h').
Proof.
  intros Hh Hl Ho.
  replace h with (<[l := default o' (h !! l)]> h).
  - apply Forall2_insert; [done |].
    destruct (h !! l) as [o|] eqn:E; simpl.
    + eapply same_shape_trans; [| exact Ho].
      by apply (Forall2_lookup_lr _ _ _ _ _ _ Hh E Hl).
    + apply lookup_ge_None in E. apply lookup_lt_Some in Hl.
      apply Forall2_length in Hh. lia.
  - destruct (h !! l) as [o|] eqn:E; simpl.
    + by apply list_insert_id.
    + apply list_insert_ge. by apply lookup_ge_None.
Qed.

Lemma list_step_shape h h' l idx :
  Forall2 same_shape h h' -> Forall2 same_shape h (list_step fn l h' idx).
Proof.
  intros Hh. unfold list_step.
  destruct (h' !! l) as [[items|m|]|] eqn:El; try done.
  destruct (items !! idx) as [item|]; [| done].
  eapply same_shape_insert; [done | done |]. simpl. apply length_insert.
Qed.

Lemma dict_step_shape h h' l subkey :
  Forall2 same_shape h h' -> Forall2 same_shape h (dict_step fn l h' subkey).
Proof.
  intros Hh. unfold dict_step.
  destruct (h' !! l) as [[items|m|]|] eqn:El; try done.
  destruct (getitem (entries m) subkey) as [x|] eqn:Ex; [| done].
  eapply same_shape_insert; [done | done |]. simpl.
  split_and!; [| done | done]. by eapply keys_setitem_present.
Qed.

Lemma foldl_shape {B} (step : heap -> B -> heap) (l : list B) h :
  (forall h' b, Forall2 same_shape h h' -> Forall2 same_shape h (step h' b)) ->
  forall h', Forall2 same_shape h h' ->
             Forall2 same_shape h (foldl step h' l).
Proof.
  intros Hstep. induction l as [|b l IH]; intros h' Hh; [done |].
  simpl. apply IH. by apply Hstep.
Qed.

Lemma apply_fn_key_shape fields h self h' key :
  Forall2 same_shape h h' ->
  Forall2 same_shape h (apply_fn_key fn fields (self, h') key).2.
Proof.
  intros Hh. unfold apply_fn_key.
  destruct (skipped h' fields key); [done |].
  destruct (getitem self key) as [v|]; [| done].
  destruct (getitem (setitem self key (fn v)) key) as [[| | | | | | |l]|];
    try done.
  destruct (h' !! l) as [[items|m|]|]; try done.
  - apply foldl_shape; [| done]. intros. by apply list_step_shape.
  - destruct (is_dict m); [| done].
    apply foldl_shape; [| done]. intros. by apply dict_step_shape.
Qed.

(** A transform that returns its argument changes nothing. *)
Lemma fmap_fixed (items : list value) :
  (forall v, fn v = v) -> fn <$> items = items.
Proof.
  intros Hid. induction items as [|x items IH]; [done |].
  by rewrite fmap_cons, Hid, IH.
Qed.

Lemma update_where_fixed sel d ks :
  (forall v, fn v = v) -> update_where fn sel d ks = d.
Proof.
  intros Hid. induction ks as [|k ks IH] using rev_ind; [done |].
  rewrite update_where_snoc, IH. simpl.
  destruct (sel k); [| done].
  destruct (getitem d k) as [v|] eqn:E; [| done].
  rewrite Hid. by apply setitem_same.
Qed.

Lemma apply_fn_key_fixed fields self h key :
  (forall v, fn v = v) -> apply_fn_key fn fields (self, h) key = (self, h).
Proof.
  intros Hid. unfold apply_fn_key.
  destruct (skipped h fields key); [done |].
  destruct (getitem self key) as [v|] eqn:E; [| done].
  rewrite Hid, (setitem_same _ _ _ E), E.
  destruct v as [| | | | | | |l]; try done.
  destruct (h !! l) as [[items|m|]|] eqn:El; try done.
  - rewrite (list_loop fn _ _ _ El), fmap_fixed by done.
    by rewrite list_insert_id.
  - destruct (is_dict m); [| done].
    rewrite (dict_loop fn _ _ _ _ El), update_where_fixed by done.
    rewrite list_insert_id; [done |]. by destruct m.
Qed.

Lemma apply_fn_fixed fields self h :
  (forall v, fn v = v) -> apply_fn fn fields self h = (self, h).
Proof.
  intros Hid. unfold apply_fn.
  induction (keys self) as [|k ks IH] using rev_ind; [done |].
  rewrite foldl_app, IH. simpl. by apply apply_fn_key_fixed.
Qed.

(** One iteration on a field that holds a list which [fn] returns as it
    is. *)
Lemma apply_fn_key_list self h key l items :
  getitem self key = Some (VRef l) ->
  fn (VRef l) = VRef l ->
  h !! l = Some (OList items) ->
  apply_fn_key fn VNone (self, h) key
  = (self, <[l := OList (fn <$> items)]> h).
Proof.
  intros Hk Hfn Hl. unfold apply_fn_key.
  change (skipped h VNone key) with false. cbv iota.
  rewrite Hk, Hfn, (setitem_same _ _ _ Hk), Hk, Hl.
  by rewrite (list_loop fn _ _ _ Hl).
Qed.

Lemma getitem_transform_store sel self k :
  getitem (transform_store fn sel self) k
  = (fun v => if sel k then fn v else v) <$> getitem self k.
Proof.
  induction self as [|[k0 x] self IH]; [done |].
  cbn [transform_store fmap list_fmap getitem fst snd].
  destruct (String.eqb k0 k) eqn:E; [| exact IH].
  apply String.eqb_eq in E as ->. done.
Qed.

End apply_fn_invariants.

(** X11.  [apply_fn] never adds, removes or reorders fields, whatever the
    transform, the [fields] argument and the heap. *)
Theorem apply_fn_preserves_fields fn (selection : value) self (h : heap) :
  fields (apply_fn fn selection self h).1 = fields self.
Proof. apply apply_fn_keys. Qed.

(** X12.  With a transform that returns every value as it is, [apply_fn]
    changes neither the Report nor any list or dict it refers to, whatever
    [fields] is. *)
Theorem apply_fn_identity fn fields self (h : heap) :
  (forall v, fn v = v) -> apply_fn fn fields self h = (self, h).
Proof. apply apply_fn_fixed. Qed.

Lemma apply_fn_identity_witness :
  apply_fn (fun v => v) VNone [("x", VRef 0); ("n", VInt 1)] nested_heap
  = ([("x", VRef 0); ("n", VInt 1)], nested_heap).
Proof.
  apply (apply_fn_identity (fun v => v) VNone
           [("x", VRef 0); ("n", VInt 1)] nested_heap).
  intros v. reflexivity.
Defined.

(** X13.  [apply_fn] allocates nothing and keeps the shape of every
    object: the heap keeps its size, a list stays a list of the same
    length, and a mapping keeps its class and its keys in order. *)
Theorem apply_fn_preserves_shapes fn fields self (h : heap) :
  Forall2 same_shape h (apply_fn fn fields self h).2
  /\ length (apply_fn fn fields self h).2 = length h.
Proof.
  assert (Hs : Forall2 same_shape h (apply_fn fn fields self h).2).
  { unfold apply_fn.
    enough (Hgen : forall ks s h0,
               Forall2 same_shape h h0 ->
               Forall2 same_shape h
                 (foldl (apply_fn_key fn fields) (s, h0) ks).2)
      by (apply Hgen, same_shape_heap_refl).
    induction ks as [|k ks IH] using rev_ind; intros s h0 Hh; [done |].
    rewrite foldl_app. simpl.
    destruct (foldl (apply_fn_key fn fields) (s, h0) ks) as [s1 h1] eqn:E.
    apply apply_fn_key_shape. specialize (IH s h0 Hh). by rewrite E in IH. }
  split; [done |]. symmetry. by eapply Forall2_length.
Qed.

(** X14.  Two fields that hold the same list share it: when [fn] returns
    the list itself, an [apply_fn] over both fields applies [fn] to every
    element of the list twice. *)
Theorem apply_fn_shared_list fn k1 k2 l items (h : heap) :
  k1 <> k2 ->
  fn (VRef l) = VRef l ->
  h !! l = Some (OList items) ->
  apply_fn fn VNone [(k1, VRef l); (k2, VRef l)] h
  = ([(k1, VRef l); (k2, VRef l)], <[l := OList (fn <$> (fn <$> items))]> h).
Proof.
  intros Hne Hfn Hl. apply String.eqb_neq in Hne.
  assert (Hlt : l < length h) by eauto using lookup_lt_Some.
  unfold apply_fn. cbn [keys fmap list_fmap fst foldl].
  rewrite (apply_fn_key_list fn _ h k1 l items); [| | done | done].
  2:{ cbn [getitem]. by rewrite String.eqb_refl. }
  rewrite (apply_fn_key_list fn _ _ k2 l (fn <$> items)); [| | done |].
  - by rewrite list_insert_insert_eq.
  - cbn [getitem]. by rewrite Hne, String.eqb_refl.
  - by apply list_lookup_insert_eq.
Qed.

Lemma apply_fn_shared_list_witness :
  apply_fn incr VNone [("a", VRef 1); ("b", VRef 1)] nested_heap
  = ([("a", VRef 1); ("b", VRef 1)],
     [OList [VInt 1; VTuple [VInt 5]; VRef 1]; OList [VInt 9]]).
Proof.
  apply (apply_fn_shared_list incr "a" "b" 1 [VInt 7] nested_heap).
  - discriminate.
  - reflexivity.
  - reflexivity.
Defined.

(** X15.  [to] rejects a [device] that is neither a [torch.device] nor a
    string with [TypeError]; a string behaves as the device it names, and
    the failure of [torch.device] on it is the failure of [to].  With
    [fields] omitted, every field whose value has a [to] method is
    replaced by what that method returns, every other field keeps its
    value, and the fields keep their order; when no value has the method,
    nothing changes at all. *)
Theorem to_relocates (device : Type) (torch_device : string -> result device)
  has_to move (d : device) non_blocking (selection : value) self (h : heap) :
  (forall v, is_str v = false ->
     to torch_device has_to move (NotDevice v) non_blocking selection self h
     = Raise TypeError)
  /\ (forall s, to torch_device has_to move (NotDevice (VStr s))
                  non_blocking selection self h
                = rbind (torch_device s) (fun d' =>
                    to torch_device has_to move (Device d')
                      non_blocking selection self h))
  /\ (NoDup (keys self) ->
      exists self' h',
        to torch_device has_to move (Device d) non_blocking VNone self h
        = Ok (self', h')
        /\ fields self' = fields self
        /\ forall k, getitem self' k
                     = (fun v => if has_to v then move d non_blocking v else v)
                         <$> getitem self k)
  /\ ((forall v, has_to v = false) ->
      to torch_device has_to move (Device d) non_blocking selection self h
      = Ok (self, h)).
Proof.
  split_and!.
  - intros v Hv. by destruct v.
  - intros s. unfold to. simpl. by destruct (torch_device s).
  - intros Hnd. unfold to. simpl.
    exists (apply_fn (to_fn has_to move d non_blocking) VNone self h).1,
           (apply_fn (to_fn has_to move d non_blocking) VNone self h).2.
    split; [f_equal; apply surjective_pairing |].
    split.
    + apply apply_fn_keys.
    + intros k.
      rewrite (apply_fn_store _ VNone (fun _ => true)) by done.
      by rewrite getitem_transform_store.
  - intros Hno. unfold to. simpl. f_equal. apply apply_fn_fixed.
    intros v. unfold to_fn. by rewrite Hno.
Qed.

Lemma to_relocates_witness :
  to (fun s => Ok s) is_tensor (fun _ _ v => v) (NotDevice (VInt 3)) true
     VNone [("a", VInt 1)] []
  = Raise TypeError
  /\ to (fun s => Ok s) (fun _ => false) (fun _ _ v => v) (Device "cpu") true
        (VTuple []) [("a", VInt 1)] []
     = Ok ([("a", VInt 1)], []).
Proof.
  split.
  - apply (proj1 (to_relocates string (fun s => Ok s) is_tensor
                    (fun _ _ v => v) "cpu" true VNone [("a", VInt 1)] [])).
    reflexivity.
  - apply (proj2 (proj2 (proj2 (to_relocates string (fun s => Ok s)
                                  (fun _ => false) (fun _ _ v => v) "cpu" true
                                  (VTuple []) [("a", VInt 1)] [])))).
    intros v. reflexivity.
Defined.

(** ** Accumulation: invariants and failures *)

Section accumulation_invariants.
Implicit Types (self report : odict) (h : heap) (w : list string).

Lemma accumulate_field_inv report self key w self' w' :
  accumulate_field report self key w = (Ok self', w') ->
  self' = self
  \/ exists a c, getitem self key = Some (VTensor a)
                 /\ self' = setitem self key (VTensor c).
Proof.
  unfold accumulate_field.
  destruct (String.eqb key sentinel); [by intros [= <- _]; left |].
  destruct (negb (contains self key)); [by intros [= <- _]; left |].
  unfold bind, lift, ret, __getitem__.
  destruct (getitem self key) as [v|] eqn:E; [| done].
  destruct v; try (by intros [= <- _]; left).
  destruct (getitem report key) as [o|]; [| done].
  destruct (torch_cat t o) as [c| |]; [| done | done].
  intros [= <- _]. right. eauto.
Qed.

Lemma accumulate_fields_keep report field_list self w self' w' :
  foldM (accumulate_field report) field_list self w = (Ok self', w') ->
  kept_by_accumulation self self'.
Proof.
  apply (foldM_invariant (kept_by_accumulation self)).
  - intros a key w0 a' w0' (Hk & Hnt & Hsome) Hstep.
    apply accumulate_field_inv in Hstep as [-> | (t & c & Ht & ->)]; [done |].
    split_and!.
    + rewrite <- Hk. by eapply keys_setitem_present.
    + intros k v Hv Hv'. destruct (decide (key = k)) as [->|Hne].
      * rewrite (Hnt _ _ Hv Hv') in Ht. by injection Ht as ->.
      * rewrite getitem_setitem_ne by done. by apply Hnt.
    + intros k Hv. destruct (decide (key = k)) as [->|Hne].
      * rewrite getitem_setitem_eq. by eauto.
      * rewrite getitem_setitem_ne by done. by apply Hsome.
  - split_and!; by eauto.
Qed.

Lemma accumulate_loss_step_inv self lo (hc : heap) i w hn w' :
  accumulate_loss_step self lo hc i w = (Ok hn, w') ->
  hn = hc
  \/ exists ls ms key a r,
       getattr self "losses" = Ok (VRef ls)
       /\ hc !! ls = Some (OMapping ms)
       /\ getitem (entries ms) key = Some (VTensor a)
       /\ hn = <[ls := OMapping (Mapping (setitem (entries ms) key (VTensor r))
                                        (is_dict ms) (batch_size_of ms))]> hc.
Proof.
  unfold accumulate_loss_step.
  destruct (hc !! lo) as [[items|mo|]|]; try (by intros [= <- _]; left).
  destruct (entries mo !! i) as [[key value]|]; [| by intros [= <- _]; left].
  unfold bind, lift, ret, warn, mapping_method, __getitem__.
  destruct (getattr self "losses") as [sl| |] eqn:Esl; [| done | done].
  destruct sl as [| | | | | | |ls]; try done.
  destruct (hc !! ls) as [[items|ms|]|] eqn:Els; try done.
  destruct (negb (contains (entries ms) key)); [by intros [= <- _]; left |].
  destruct (getitem (entries ms) key) as [x|] eqn:Ex; [| done].
  destruct x; try (by intros [= <- _]; left).
  destruct (tensor_iadd t value) as [r| |]; [| done | done].
  intros [= <- _]. right. by exists ls, ms, key, t, r.
Qed.

Lemma accumulate_loss_keeps self report h w h' w' :
  _accumulate_loss self report h w = (Ok h', w') -> Forall2 same_shape h h'.
Proof.
  unfold _accumulate_loss.
  intros (rl & w1 & _ & H1)%bind_inv_ok.
  apply bind_inv_ok in H1 as ([lo mo] & w2 & _ & Hfold). revert Hfold.
  apply (foldM_invariant (fun hc => Forall2 same_shape h hc)).
  - intros hc i w0 hn w0' Hs Hstep.
    apply accumulate_loss_step_inv in Hstep
      as [-> | (ls & ms & key & a & r & Hsl & Hls & Hk & ->)]; [done |].
    eapply same_shape_insert; [done | done |]. simpl.
    split_and!; [| done | done]. by eapply keys_setitem_present.
  - apply same_shape_heap_refl.
Qed.

End accumulation_invariants.

(** X16.  A successful [accumulate_tensor_fields_and_loss] keeps the field
    list of [self], in order, and the value of every field that is not a
    tensor, whatever the other report holds under that name.  The batch
    size in particular is not accumulated: while the tensors grow,
    [get_batch_size()] returns what it returned before. *)
Theorem accumulate_keeps_non_tensors self report field_list (h : heap)
  self' h' log :
  run (accumulate_tensor_fields_and_loss self report field_list h)
  = (Ok (self', h'), log) ->
  fields self' = fields self
  /\ (forall k v, getitem self k = Some v -> is_tensor v = false ->
                  getitem self' k = Some v)
  /\ (forall v, getitem self "batch_size" = Some v -> is_tensor v = false ->
                getitem self "_batch_size" = None ->
                get_batch_size self' = Ok v).
Proof.
  unfold run, accumulate_tensor_fields_and_loss.
  intros (s1 & w1 & Hloop & Hrest)%bind_inv_ok.
  apply bind_inv_ok in Hrest as (h1 & w2 & _ & Hret).
  injection Hret as <- _ _.
  apply accumulate_fields_keep in Hloop as (Hk & Hnt & Hsome).
  split_and!; [done | done |].
  intros v Hv Hvt Hnone. rewrite get_batch_size_spec, (Hnt _ _ Hv Hvt).
  destruct (getitem s1 "_batch_size") eqn:E; [| done].
  assert (Hin : "_batch_size" ∈ keys s1).
  { destruct (decide ("_batch_size" ∈ keys s1)) as [|Hn]; [done |].
    apply getitem_None in Hn. congruence. }
  rewrite Hk in Hin. by apply getitem_None in Hnone.
Qed.

Lemma accumulate_keeps_non_tensors_witness :
  get_batch_size
    [("batch_size", VInt 4);
     ("scores", VTensor (Tensor [6; 1]
                  [f32 1 0; f32 2 0; f32 3 0; f32 4 0; f32 5 0; f32 6 0]));
     ("losses", VRef 0)]
  = Ok (VInt 4).
Proof.
  refine (proj2 (proj2 (accumulate_keeps_non_tensors
    [("batch_size", VInt 4);
     ("scores", VTensor (Tensor [4; 1] [f32 1 0; f32 2 0; f32 3 0; f32 4 0]));
     ("losses", VRef 0)]
    [("batch_size", VInt 2);
     ("scores", VTensor (Tensor [2; 1] [f32 5 0; f32 6 0]));
     ("losses", VRef 1)]
    ["batch_size"; "scores"] tensor_losses _ _ _ _)) (VInt 4) eq_refl eq_refl
    eq_refl).
  vm_compute. reflexivity.
Defined.

(** X17.  After names that are absent or the sentinel, a name under which
    [self] holds a tensor stops the accumulation when the other report
    cannot supply a tensor: [KeyError] when the other report has no such
    field, [TypeError] when its value is not a tensor.  The warnings of the
    earlier names have been emitted; the losses are not reached. *)
Theorem accumulate_field_failures self report pre key post (h : heap) a :
  Forall (fun k => k = sentinel \/ contains self k = false) pre ->
  key <> sentinel ->
  getitem self key = Some (VTensor a) ->
  (getitem report key = None ->
   run (accumulate_tensor_fields_and_loss self report (pre ++ key :: post) h)
   = (Raise (KeyError key),
      metrics_warning <$> filter (fun k => k <> sentinel) pre))
  /\ (forall b,
        getitem report key = Some b -> is_tensor b = false ->
        run (accumulate_tensor_fields_and_loss self report
               (pre ++ key :: post) h)
        = (Raise TypeError,
           metrics_warning <$> filter (fun k => k <> sentinel) pre)).
Proof.
  intros Hpre Hs Ha.
  assert (Hloop : forall e,
             (forall w, accumulate_field report self key w = (Raise e, w)) ->
             run (accumulate_tensor_fields_and_loss self report
                    (pre ++ key :: post) h)
             = (Raise e, metrics_warning <$> filter (fun k => k <> sentinel) pre)).
  { intros e He. unfold run, accumulate_tensor_fields_and_loss.
    unfold bind at 1.
    rewrite (foldM_app _ _ _ _ _ _ _
               (accumulate_fields_absent report self pre [] Hpre)).
    cbn [foldM]. unfold bind at 1. by rewrite He. }
  split.
  - intros Hb. apply Hloop. intros w. unfold accumulate_field.
    rewrite (sentinel_eqb _ Hs), contains_getitem, Ha. simpl.
    unfold __getitem__, bind, lift. by rewrite Ha, Hb.
  - intros b Hb Hbt. apply Hloop. intros w. unfold accumulate_field.
    rewrite (sentinel_eqb _ Hs), contains_getitem, Ha. simpl.
    unfold __getitem__, bind, lift. rewrite Ha, Hb. by destruct b.
Qed.

Lemma accumulate_field_failures_witness :
  run (accumulate_tensor_fields_and_loss
         [("scores", VTensor (Tensor [1; 1] [f32 1 0]))] []
         ["missing"; "scores"] [])
  = (Raise (KeyError "scores"), [metrics_warning "missing"]).
Proof.
  apply (proj1 (accumulate_field_failures
                  [("scores", VTensor (Tensor [1; 1] [f32 1 0]))] []
                  ["missing"] "scores" [] [] (Tensor [1; 1] [f32 1 0])
                  ltac:(repeat constructor; by right)
                  ltac:(discriminate) eq_refl) eq_refl).
Defined.

(** X18.  Which reports [_accumulate_loss] accepts: the other report must
    have a field [losses], or [AttributeError] is raised; [self.losses] is
    only looked at once the other report has a loss, so an empty
    [other.losses] succeeds and changes nothing even when [self] has no
    [losses], and a non-empty one then raises [AttributeError]. *)
Theorem accumulate_loss_edges self report (h : heap) w :
  (getitem report "losses" = None ->
   _accumulate_loss self report h w = (Raise (AttributeError "losses"), w))
  /\ (forall lo mo,
        getitem report "losses" = Some (VRef lo) ->
        h !! lo = Some (OMapping mo) ->
        (entries mo = [] -> _accumulate_loss self report h w = (Ok h, w))
        /\ (entries mo <> [] -> getitem self "losses" = None ->
            _accumulate_loss self report h w
            = (Raise (AttributeError "losses"), w))).
Proof.
  assert (Hattr : forall s : odict,
             getattr s "losses" = __getattr__ s "losses").
  { intros s. by apply getattr_plain. }
  split.
  - intros Hr. unfold _accumulate_loss.
    rewrite Hattr, __getattr___spec, Hr. done.
  - intros lo mo Hr Hlo.
    assert (Hstart : _accumulate_loss self report h w
                     = foldM (accumulate_loss_step self lo)
                         (seq 0 (length (entries mo))) h w).
    { unfold _accumulate_loss.
      rewrite Hattr, __getattr___spec, Hr.
      unfold bind, lift, mapping_method. cbv beta iota. by rewrite Hlo. }
    rewrite Hstart. split.
    + by intros ->.
    + intros Hne Hs. destruct (entries mo) as [|[key value] rest] eqn:E;
        [done |].
      cbn [length seq foldM]. unfold bind at 1.
      unfold accumulate_loss_step. rewrite Hlo, E. cbn [lookup list_lookup].
      rewrite Hattr, __getattr___spec, Hs. done.
Qed.

Lemma accumulate_loss_edges_witness :
  _accumulate_loss [] [("losses", VRef 0)] [dict_of []] [] = (Ok [dict_of []], [])
  /\ _accumulate_loss [] [("losses", VRef 1)] tensor_losses []
     = (Raise (AttributeError "losses"), []).
Proof.
  split.
  - apply (proj1 (proj2 (accumulate_loss_edges [] [("losses", VRef 0)]
                           [dict_of []] []) 0 (Mapping [] true None)
                    eq_refl eq_refl) eq_refl).
  - apply (proj2 (proj2 (accumulate_loss_edges [] [("losses", VRef 1)]
                           tensor_losses []) 1
                    (Mapping [("ce", scalar (f32 1 (-1)));
                              ("extra", scalar (f32 9 0))] true None)
                    eq_refl eq_refl)); [discriminate | reflexivity].
Defined.

(** X19.  A successful [_accumulate_loss] adds and removes no loss: it
    allocates nothing, every object keeps its class and its size, and a
    dict, [self.losses] in particular, keeps its keys in order, so a loss
    that only the other report has is never added. *)
Theorem accumulate_loss_no_new_key self report (h : heap) w h' w' :
  _accumulate_loss self report h w = (Ok h', w') ->
  Forall2 same_shape h h'
  /\ length h' = length h
  /\ (forall l m,
        h !! l = Some (OMapping m) ->
        exists m', h' !! l = Some (OMapping m')
                   /\ keys (entries m') = keys (entries m)).
Proof.
  intros Hs%accumulate_loss_keeps. split_and!.
  - done.
  - symmetry. by eapply Forall2_length.
  - intros l m Hl.
    destruct (Forall2_lookup_l _ _ _ _ _ Hs Hl) as (o' & Hl' & Ho).
    destruct o' as [|m'|]; try done. exists m'. split; [done |]. apply Ho.
Qed.

Lemma accumulate_loss_no_new_key_witness :
  exists m',
    [dict_of [("ce", scalar (f32 3 (-1)))];
     dict_of [("ce", scalar (f32 1 (-1))); ("extra", scalar (f32 9 0))]] !! 0
    = Some (OMapping m')
    /\ keys (entries m') = ["ce"].
Proof.
  refine (proj2 (proj2 (accumulate_loss_no_new_key [("losses", VRef 0)]
                          [("losses", VRef 1)] tensor_losses [] _
                          [loss_warning "extra"] _))
            0 (Mapping [("ce", scalar (f32 1 0))] true None) eq_refl).
  vm_compute. reflexivity.
Defined.

(** ** Copy: the whole Report *)

Section copy_closed_form.
Variable deepcopy : heap -> value -> heap * value.
Implicit Types (self acc pre post : odict) (h : heap).

Lemma keys_copy_entries post h :
  keys (copy_entries deepcopy post h).1 = keys post.
Proof.
  revert h. induction post as [|[k v] post IH]; intros h; [done |].
  cbn [copy_entries]. destruct (deepcopy h v) as [h1 v'].
  specialize (IH h1). destruct (copy_entries deepcopy post h1) as [r h2].
  simpl in *. by rewrite IH.
Qed.

Lemma copy_loop_entries self post : forall pre acc h,
  self = pre ++ post ->
  NoDup (keys self) ->
  keys acc = keys pre ->
  foldl (copy_field deepcopy self) (acc, h) (keys post)
  = (acc ++ (copy_entries deepcopy post h).1,
     (copy_entries deepcopy post h).2).
Proof.
  induction post as [|[k v] post IH]; intros pre acc h Hself Hnd Hacc.
  - simpl. by rewrite app_nil_r.
  - assert (Hk : k ∉ keys pre).
    { rewrite Hself in Hnd. unfold keys in *. rewrite fmap_app in Hnd.
      apply NoDup_app in Hnd as (_ & Hdis & _).
      intros Hin. apply (Hdis _ Hin). left. }
    cbn [keys fmap list_fmap fst foldl copy_entries].
    unfold copy_field at 2.
    rewrite Hself at 2. rewrite getitem_app_fresh by done.
    cbn [getitem]. rewrite String.eqb_refl.
    destruct (deepcopy h v) as [h1 v'].
    assert (Hset : setitem acc k v' = acc ++ [(k, v')]).
    { rewrite <- (app_nil_r acc) at 1.
      rewrite setitem_app_fresh; [done | by rewrite Hacc]. }
    rewrite Hset.
    specialize (IH (pre ++ [(k, v)]) (acc ++ [(k, v')]) h1).
    fold (keys post). rewrite IH.
    + destruct (copy_entries deepcopy post h1) as [r h2]. simpl.
      by rewrite <- app_assoc.
    + by rewrite <- app_assoc.
    + done.
    + unfold keys in *. by rewrite !fmap_app, Hacc.
Qed.

Lemma copy_is_copy_entries self h :
  NoDup (keys self) -> copy deepcopy self h = copy_entries deepcopy self h.
Proof.
  intros Hnd. unfold copy, fields.
  etransitivity; [by apply (copy_loop_entries self self [] [] h) |].
  by destruct (copy_entries deepcopy self h).
Qed.

End copy_closed_form.

(** X20.  [copy()] of a Report with distinct keys returns a Report with
    the same fields in the same order, each value being the [deepcopy] of
    the original value, the copies made one after the other in field
    order.  The copy of the empty Report is empty. *)
Theorem copy_all_fields deepcopy self (h : heap) :
  NoDup (keys self) ->
  copy deepcopy self h = copy_entries deepcopy self h
  /\ fields (copy deepcopy self h).1 = fields self
  /\ copy deepcopy [] h = ([], h).
Proof.
  intros Hnd. split_and!.
  - by apply copy_is_copy_entries.
  - by apply copy_fields.
  - done.
Qed.

Lemma copy_all_fields_witness :
  copy (fun h v => (h ++ [OOther], incr v)) [("a", VInt 1); ("b", VInt 5)] []
  = ([("a", VInt 2); ("b", VInt 6)], [OOther; OOther]).
Proof.
  refine (eq_trans (proj1 (copy_all_fields (fun h v => (h ++ [OOther], incr v))
                             [("a", VInt 1); ("b", VInt 5)] [] _)) _).
  - apply (bool_decide_unpack _). vm_compute. exact I.
  - reflexivity.
Defined.

(** X21.  A copy answers [get_batch_size()] exactly when the original
    does: [copy()] keeps the field the accessor reads, although it sets no
    attribute of its own. *)
Theorem copy_keeps_batch_size deepcopy self (h : heap) :
  NoDup (keys self) ->
  (exists v, get_batch_size (copy deepcopy self h).1 = Ok v)
  <-> (exists v, get_batch_size self = Ok v).
Proof.
  intros Hnd. rewrite !get_batch_size_iff.
  assert (Hf := copy_fields deepcopy self h Hnd). unfold fields in Hf.
  by rewrite Hf.
Qed.

Lemma copy_keeps_batch_size_witness :
  exists v,
    get_batch_size (copy (fun h v => (h, v)) [("batch_size", VInt 4)] []).1
    = Ok v.
Proof.
  apply (proj2 (copy_keeps_batch_size (fun h v => (h, v))
                  [("batch_size", VInt 4)] []
                  ltac:(apply (bool_decide_unpack _); vm_compute; exact I))).
  exists (VInt 4). reflexivity.
Defined.

(** ** Construction from the items of a Report *)

Lemma items_are_pairs (h : heap) (self : odict) :
  Forall2 (is_pair h) (items_as_pairs self) self.
Proof.
  unfold items_as_pairs. induction self as [|[k v] self IH]; [constructor |].
  rewrite fmap_cons. constructor; [| exact IH]. by split_and!.
Qed.

(** X22.  The sequence of [(key, value)] pairs of a non-empty Report
    rebuilds that Report: constructing from it, as a tuple or as a list,
    gives back the same fields with the same values in the same order,
    without a warning, whatever else is passed.  The items of an empty
    Report do not: they raise [IndexError]. *)
Theorem init_from_items h batch self model_output args :
  iterate h batch = Ok (items_as_pairs self) ->
  NoDup (keys self) ->
  (self <> [] ->
   run (__init__ h batch model_output args) = (Ok self, []))
  /\ (self = [] ->
      run (__init__ h batch model_output args) = (Raise IndexError, [])).
Proof.
  intros Hit Hnd. split.
  - intros Hne. destruct self as [|kv self]; [done |].
    unfold items_as_pairs in Hit. rewrite fmap_cons in Hit.
    rewrite (init_tuple_path h batch _ _ (kv :: self) model_output args Hit).
    + unfold run, ret. by rewrite assign_all_fresh.
    + apply (items_are_pairs h (kv :: self)).
  - intros ->. cbn in Hit.
    assert (Hsub : subscript h batch 0 = Raise IndexError).
    { destruct batch; simpl in *; try done.
      - by injection Hit as ->.
      - destruct (h !! l) as [[]|]; try done. by injection Hit as ->. }
    assert (Hload : forall h', iterate h' batch = Ok [] ->
               _check_and_load_tuple h' [] batch = Raise IndexError).
    { intros h' Hit'. unfold _check_and_load_tuple.
      rewrite (iterate_not_mapping _ _ _ Hit').
      destruct batch; simpl in *; try done.
      - by injection Hit' as ->.
      - destruct (h' !! l) as [[]|]; try done. by injection Hit' as ->. }
    unfold run, __init__.
    destruct batch; try done; destruct model_output;
      (rewrite Hload; [done | by eauto using iterate_app]).
Qed.

Lemma init_from_items_witness :
  run (__init__ [] (VTuple (items_as_pairs
                              [("batch_size", VInt 4); ("a", VInt 1)]))
         VNone [])
  = (Ok [("batch_size", VInt 4); ("a", VInt 1)], []).
Proof.
  apply (proj1 (init_from_items []
                  (VTuple (items_as_pairs
                             [("batch_size", VInt 4); ("a", VInt 1)]))
                  [("batch_size", VInt 4); ("a", VInt 1)]
                  VNone [] eq_refl
                  ltac:(apply (bool_decide_unpack _); vm_compute; exact I))).
  discriminate.
Defined.

(** * The whole calls *)

(** ** Transform application: the loop over the fields *)

Section apply_fn_closed_form.
Variable fn : value -> value.
Implicit Types (h : heap) (self pre post : odict) (fields : value).

Lemma keys_map_values (m : mapping) :
  keys (entries (map_values fn m)) = keys (entries m).
Proof.
  unfold keys, map_values. cbn [entries].
  rewrite <- list_fmap_compose. by apply list_fmap_ext.
Qed.

Lemma apply_fn_key_transform fields self h key :
  distinct_keys h ->
  apply_fn_key fn fields (self, h) key = transform_field fn fields (self, h) key.
Proof.
  intros Hd. unfold apply_fn_key, transform_field. cbn [fst snd].
  destruct (skipped h fields key); [done |].
  destruct (getitem self key) as [v|]; [| done].
  rewrite getitem_setitem_eq. unfold transform_object.
  destruct (fn v) as [| | | | | | |l]; try done.
  destruct (h !! l) as [[items|m|]|] eqn:El; try done.
  - by rewrite (list_loop fn _ _ _ El).
  - destruct (is_dict m); [| done].
    rewrite (dict_loop fn _ _ _ _ El), update_where_keys, transform_store_all;
      [done |].
    exact (Forall_lookup_1 _ _ _ _ Hd El).
Qed.

Lemma transform_object_distinct h r :
  distinct_keys h -> distinct_keys (transform_object fn h r).
Proof.
  intros Hd. unfold transform_object.
  destruct r as [| | | | | | |l]; try done.
  destruct (h !! l) as [[items|m|]|] eqn:El; try done.
  - by apply Forall_insert.
  - destruct (is_dict m); [| done].
    apply Forall_insert; [done |]. rewrite keys_map_values.
    exact (Forall_lookup_1 _ _ _ _ Hd El).
Qed.

Lemma transform_field_distinct fields self h key :
  distinct_keys h ->
  distinct_keys (transform_field fn fields (self, h) key).2.
Proof.
  intros Hd. unfold transform_field. cbn [fst snd].
  destruct (skipped h fields key); [done |].
  destruct (getitem self key) as [v|]; [| done].
  by apply transform_object_distinct.
Qed.

Lemma apply_fn_loop_transform fields ks : forall self h,
  distinct_keys h ->
  foldl (apply_fn_key fn fields) (self, h) ks
  = foldl (transform_field fn fields) (self, h) ks.
Proof.
  induction ks as [|k ks IH]; intros self h Hd; [done |].
  cbn [foldl]. rewrite apply_fn_key_transform by done.
  pose proof (transform_field_distinct fields self h k Hd) as Hd'.
  destruct (transform_field fn fields (self, h) k) as [s1 h1].
  by apply IH.
Qed.

Lemma elem_of_getitem self k v :
  NoDup (keys self) -> (k, v) ∈ self -> getitem self k = Some v.
Proof.
  induction self as [|[k0 v0] self IH]; intros Hnd Hin.
  - by apply elem_of_nil in Hin.
  - cbn [keys fmap list_fmap fst] in Hnd. apply NoDup_cons in Hnd as [Hk0 Hnd].
    cbn [getitem]. apply elem_of_cons in Hin as [[= -> ->]|Hin].
    + by rewrite String.eqb_refl.
    + destruct (String.eqb k0 k) eqn:E; [| by apply IH].
      apply String.eqb_eq in E as ->. destruct Hk0.
      apply list_elem_of_fmap. by exists (k, v).
Qed.

(** The step of the loops below: the store is [pre ++ (k, v) :: post] and
    [k] is its next key. *)
Lemma apply_fn_key_next fields pre post h k v :
  k ∉ keys pre ->
  exists h',
    apply_fn_key fn fields (pre ++ (k, v) :: post, h) k
    = (if skipped h fields k then pre ++ (k, v) :: post
       else pre ++ (k, fn v) :: post, h')
    /\ (skipped h fields k = true -> h' = h)
    /\ (forall l', fn v <> VRef l' -> h' !! l' = h !! l').
Proof.
  intros Hk. destruct (skipped h fields k) eqn:Es.
  - exists h. unfold apply_fn_key. by rewrite Es.
  - assert (Hget : getitem (pre ++ (k, v) :: post) k = Some v).
    { rewrite getitem_app_fresh by done. cbn [getitem].
      by rewrite String.eqb_refl. }
    destruct (apply_fn_key_one_level fn fields _ h k v Es Hget)
      as (h' & Hrun & _ & _ & Hframe & _).
    exists h'. split; [| split; [done | done]].
    etransitivity; [exact Hrun |].
    rewrite setitem_app_fresh by done. cbn [setitem].
    by rewrite String.eqb_refl.
Qed.

(** An object that the image of no field refers to is left as it is. *)
Lemma apply_fn_loop_frame fields l' post : forall pre h,
  NoDup (keys (pre ++ post)) ->
  Forall (fun kv => fn kv.2 <> VRef l') post ->
  (foldl (apply_fn_key fn fields) (pre ++ post, h) (keys post)).2 !! l'
  = h !! l'.
Proof.
  induction post as [|[k v] post IH]; intros pre h Hnd Hall; [done |].
  apply Forall_cons in Hall as [Hv Hall]. cbn [snd] in Hv.
  assert (Hk : k ∉ keys pre).
  { unfold keys in *. rewrite fmap_app in Hnd.
    apply NoDup_app in Hnd as (_ & Hdis & _).
    intros Hin. apply (Hdis _ Hin). left. }
  cbn [keys fmap list_fmap fst foldl]. fold (keys post).
  destruct (apply_fn_key_next fields pre post h k v Hk)
    as (h' & -> & _ & Hframe).
  rewrite <- (Hframe l' Hv).
  destruct (skipped h fields k).
  - specialize (IH (pre ++ [(k, v)]) h'). rewrite <- !app_assoc in IH.
    apply IH; [| done]. revert Hnd. unfold keys. by rewrite !fmap_app.
  - specialize (IH (pre ++ [(k, fn v)]) h'). rewrite <- !app_assoc in IH.
    apply IH; [| done]. revert Hnd. unfold keys. by rewrite !fmap_app.
Qed.

End apply_fn_closed_form.

(** C6 (counterexample).  A field that holds a mapping which is not a dict
    (a [types.MappingProxyType], or any class that implements
    [collections.abc.Mapping] without deriving from [dict]): [fn] is
    applied to the field and to none of the values of the mapping, whose
    [x] stays [1]. *)
Lemma apply_fn_mapping_counterexample :
  apply_fn incr VNone [("m", VRef 0)] proxy_heap
  = ([("m", VRef 0)], proxy_heap)
  /\ (apply_fn incr VNone [("m", VRef 0)] proxy_heap).2
     <> [OMapping (map_values incr (Mapping [("x", VInt 1)] false None))].
Proof. split; [reflexivity | discriminate]. Qed.

(** C6 (as amended).  [apply_fn] visits the keys of the Report in order
    and does, for each key it processes, what [transform_field] says: the
    field gets the image under [fn] of its value; then, when that image is
    a list, the list is updated in place to the images of its elements,
    and when it is a dict, the dict is updated in place to the images of
    its values.  A mapping that is not a dict, and any other object, is
    left as it is.  That is the only level: an object to which the image
    of no field refers, such as a list held inside a list, is the same
    after the call. *)
Theorem apply_fn_transforms_one_level fn h :
  distinct_keys h ->
  (forall selection self,
     apply_fn fn selection self h
     = foldl (transform_field fn selection) (self, h) (keys self))
  /\ (forall key v,
        apply_fn fn VNone [(key, v)] h
        = ([(key, fn v)], transform_object fn h (fn v)))
  /\ (forall key v l items,
        fn v = VRef l -> h !! l = Some (OList items) ->
        apply_fn fn VNone [(key, v)] h
        = ([(key, VRef l)], <[l := OList (fn <$> items)]> h))
  /\ (forall key v l m,
        fn v = VRef l -> h !! l = Some (OMapping m) ->
        apply_fn fn VNone [(key, v)] h
        = ([(key, VRef l)],
           if is_dict m then <[l := OMapping (map_values fn m)]> h else h))
  /\ (forall selection self l',
        NoDup (keys self) ->
        (forall k v, getitem self k = Some v -> fn v <> VRef l') ->
        (apply_fn fn selection self h).2 !! l' = h !! l').
Proof.
  intros Hd.
  assert (Hone : forall key v,
             apply_fn fn VNone [(key, v)] h
             = ([(key, fn v)], transform_object fn h (fn v))).
  { intros key v. unfold apply_fn. rewrite apply_fn_loop_transform by done.
    cbn [keys fmap list_fmap fst foldl]. unfold transform_field.
    cbn [fst snd getitem setitem]. change (skipped h VNone key) with false.
    cbv iota. by rewrite String.eqb_refl. }
  split_and!.
  - intros selection self. by apply apply_fn_loop_transform.
  - exact Hone.
  - intros key v l items Hv Hl. rewrite Hone, Hv. unfold transform_object.
    by rewrite Hl.
  - intros key v l m Hv Hl. rewrite Hone, Hv. unfold transform_object.
    rewrite Hl. by destruct (is_dict m).
  - intros selection self l' Hnd Hall.
    apply (apply_fn_loop_frame fn selection l' self []); [done |].
    apply Forall_forall. intros [k v] Hin. cbn [snd].
    apply (Hall k). by apply elem_of_getitem.
Qed.

Lemma apply_fn_transforms_one_level_witness :
  apply_fn incr VNone [("x", VRef 0); ("d", VRef 2)]
    (nested_heap ++ [dict_of [("p", VInt 1); ("q", VRef 1)]])
  = ([("x", VRef 0); ("d", VRef 2)],
     [OList [VInt 2; VTuple [VInt 5]; VRef 1]; OList [VInt 7];
      dict_of [("p", VInt 2); ("q", VRef 1)]]).
Proof.
  refine (eq_trans
            (proj1 (apply_fn_transforms_one_level incr
                      (nested_heap ++ [dict_of [("p", VInt 1); ("q", VRef 1)]])
                      _)
               VNone [("x", VRef 0); ("d", VRef 2)]) _).
  - repeat constructor; apply (bool_decide_unpack _); vm_compute; exact I.
  - vm_compute. reflexivity.
Defined.

(** ** Transform application: the selection of the fields *)

Section apply_fn_selection.
Variable fn : value -> value.
Implicit Types (h : heap) (self pre post : odict) (fields : value).

Lemma apply_fn_key_unskipped fields self h key :
  skipped h fields key = false ->
  apply_fn_key fn fields (self, h) key = apply_fn_key fn VNone (self, h) key.
Proof. intros Hs. unfold apply_fn_key. by rewrite Hs. Qed.

Lemma apply_fn_key_skipped fields self h key :
  skipped h fields key = true ->
  apply_fn_key fn fields (self, h) key = (self, h).
Proof. intros Hs. unfold apply_fn_key. by rewrite Hs. Qed.

(** What is neither a list nor a tuple stays so while objects keep their
    class. *)
Lemma list_or_tuple_items_shape h h' v :
  Forall2 same_shape h h' ->
  list_or_tuple_items h v = None -> list_or_tuple_items h' v = None.
Proof.
  intros Hs. destruct v as [| | | | | | |l]; try done. simpl.
  destruct (h !! l) as [o|] eqn:El.
  - destruct (Forall2_lookup_l _ _ _ _ _ Hs El) as (o' & -> & Ho).
    by destruct o, o'.
  - intros _. apply lookup_ge_None in El.
    rewrite (Forall2_length _ _ _ Hs) in El.
    apply lookup_ge_None in El. by rewrite El.
Qed.

(** A selection that does not depend on what the loop does to the heap:
    the loop is the unrestricted loop over the selected keys. *)
Lemma apply_fn_loop_stable fields (sel : string -> bool) h ks :
  (forall h', Forall2 same_shape h h' ->
              forall k, skipped h' fields k = negb (sel k)) ->
  forall self h0,
    Forall2 same_shape h h0 ->
    foldl (apply_fn_key fn fields) (self, h0) ks
    = foldl (apply_fn_key fn VNone) (self, h0)
        (filter (fun k => sel k = true) ks).
Proof.
  intros Hsel. induction ks as [|k ks IH]; intros self h0 Hs; [done |].
  cbn [foldl]. rewrite filter_cons.
  pose proof (Hsel h0 Hs k) as Hk. destruct (sel k) eqn:E; simpl in Hk.
  - rewrite decide_True by done. cbn [foldl].
    rewrite (apply_fn_key_unskipped _ _ _ _ Hk).
    pose proof (apply_fn_key_shape fn VNone h self h0 k Hs) as Hs'.
    destruct (apply_fn_key fn VNone (self, h0) k) as [s1 h1].
    by apply IH.
  - rewrite decide_False by done.
    rewrite (apply_fn_key_skipped _ _ _ _ Hk). by apply IH.
Qed.

(** A list of names that the call does not transform. *)
Lemma apply_fn_loop_list lf items post : forall pre h,
  NoDup (keys (pre ++ post)) ->
  Forall (fun kv => fn kv.2 <> VRef lf) post ->
  h !! lf = Some (OList items) ->
  foldl (apply_fn_key fn (VRef lf)) (pre ++ post, h) (keys post)
  = foldl (apply_fn_key fn VNone) (pre ++ post, h)
      (filter (fun k => contained items k = true) (keys post)).
Proof.
  induction post as [|[k v] post IH]; intros pre h Hnd Hall Hlf; [done |].
  apply Forall_cons in Hall as [Hv Hall]. cbn [snd] in Hv.
  assert (Hk : k ∉ keys pre).
  { unfold keys in *. rewrite fmap_app in Hnd.
    apply NoDup_app in Hnd as (_ & Hdis & _).
    intros Hin. apply (Hdis _ Hin). left. }
  assert (Hskip : skipped h (VRef lf) k = negb (contained items k)).
  { unfold skipped. simpl. by rewrite Hlf. }
  cbn [keys fmap list_fmap fst foldl]. fold (keys post).
  rewrite filter_cons. destruct (contained items k) eqn:E; simpl in Hskip.
  - rewrite decide_True by done. cbn [foldl].
    destruct (apply_fn_key_next fn VNone pre post h k v Hk)
      as (h' & Hrun & _ & Hframe).
    change (skipped h VNone k) with false in Hrun. cbv iota in Hrun.
    assert (Hstep : apply_fn_key fn (VRef lf) (pre ++ (k, v) :: post, h) k
                    = (pre ++ (k, fn v) :: post, h')).
    { etransitivity; [by apply apply_fn_key_unskipped | exact Hrun]. }
    etransitivity;
      [exact (f_equal (fun st => foldl _ st _) Hstep) |].
    etransitivity;
      [| symmetry; exact (f_equal (fun st => foldl _ st _) Hrun)].
    specialize (IH (pre ++ [(k, fn v)]) h'). rewrite <- !app_assoc in IH.
    apply IH; [| done |].
    + revert Hnd. unfold keys. by rewrite !fmap_app.
    + by rewrite (Hframe lf Hv).
  - rewrite decide_False by done.
    etransitivity;
      [exact (f_equal (fun st => foldl _ st _)
                (apply_fn_key_skipped _ _ _ _ Hskip)) |].
    specialize (IH (pre ++ [(k, v)]) h). rewrite <- !app_assoc in IH.
    apply IH; [| done | done].
    revert Hnd. unfold keys. by rewrite !fmap_app.
Qed.

Lemma update_where_filter (sel : string -> bool) d ks :
  update_where fn (fun _ => true) d (filter (fun k => sel k = true) ks)
  = update_where fn sel d ks.
Proof.
  revert d. induction ks as [|k ks IH]; intros d; [done |].
  rewrite filter_cons. unfold update_where at 2. cbn [foldl].
  fold (update_where fn sel). destruct (sel k) eqn:E.
  - rewrite decide_True by done. unfold update_where at 1. cbn [foldl].
    fold (update_where fn (fun _ => true)). apply IH.
  - rewrite decide_False by done. apply IH.
Qed.

(** The store the unrestricted loop over the selected keys leaves. *)
Lemma apply_fn_on_store (sel : string -> bool) self h :
  NoDup (keys self) ->
  (apply_fn_on fn (filter (fun k => sel k = true) (keys self)) self h).1
  = transform_store fn sel self.
Proof.
  intros Hnd. unfold apply_fn_on.
  rewrite (apply_fn_loop_store fn VNone (fun _ => true)) by done.
  rewrite update_where_filter. by apply update_where_keys.
Qed.

(** Every key is tested against [fields] as the heap is when the key is
    reached. *)
Lemma apply_fn_loop_tested fields ks : forall st,
  foldl (apply_fn_key fn fields) st ks
  = foldl (fun st k => if skipped st.2 fields k then st
                       else apply_fn_key fn VNone st k) st ks.
Proof.
  induction ks as [|k ks IH]; intros [self h]; [done |].
  cbn [foldl snd]. rewrite <- IH. f_equal.
Qed.

Lemma filter_all_keys (ks : list string) :
  filter (fun k => (fun _ : string => true) k = true) ks = ks.
Proof.
  induction ks as [|k ks IH]; [done |].
  by rewrite filter_cons, decide_True, IH.
Qed.

End apply_fn_selection.

(** C7 (as amended).  Each key of the Report is tested against [fields]
    when the loop reaches it: a key that a list or tuple [fields] does not
    contain is left alone, any other key is processed as in the call
    without [fields].  If [fields] is a tuple, or a list that the call
    itself does not transform, the call therefore does what the
    unrestricted loop does on the keys contained in [fields], in the order
    of the Report, and nothing for the other keys: exactly the fields with
    those keys are replaced by their images.  An empty list or tuple
    processes no key.  In every other case, [fields] omitted, [None], or a
    value that is neither a list nor a tuple, such as a set, a dict or a
    string, every key of the Report is processed. *)
Theorem apply_fn_selects_fields fn selection self h :
  NoDup (keys self) ->
  apply_fn fn selection self h
  = foldl (fun st k => if skipped st.2 selection k then st
                       else apply_fn_key fn VNone st k)
      (self, h) (keys self)
  /\ (forall items,
     selection = VTuple items
     \/ (exists lf, selection = VRef lf /\ h !! lf = Some (OList items)
                    /\ forall k v, getitem self k = Some v -> fn v <> VRef lf) ->
     apply_fn fn selection self h
     = apply_fn_on fn (filter (fun k => contained items k = true) (keys self))
         self h
     /\ (apply_fn fn selection self h).1
        = transform_store fn (contained items) self)
  /\ (list_or_tuple_items h selection = Some [] ->
      apply_fn fn selection self h = (self, h))
  /\ (list_or_tuple_items h selection = None ->
      apply_fn fn selection self h = apply_fn_on fn (keys self) self h
      /\ (apply_fn fn selection self h).1
         = transform_store fn (fun _ => true) self).
Proof.
  intros Hnd. split_and!.
  - apply apply_fn_loop_tested.
  - intros items Hsel.
    assert (Hrun : apply_fn fn selection self h
                   = apply_fn_on fn
                       (filter (fun k => contained items k = true) (keys self))
                       self h).
    { destruct Hsel as [-> | (lf & -> & Hlf & Hfn)].
      - apply (apply_fn_loop_stable fn (VTuple items) (contained items) h).
        + intros h' _ k. done.
        + apply same_shape_heap_refl.
      - apply (apply_fn_loop_list fn lf items self []); [done | | done].
        apply Forall_forall. intros [k v] Hin. cbn [snd].
        apply (Hfn k). by apply elem_of_getitem. }
    split; [exact Hrun |]. rewrite Hrun. by apply apply_fn_on_store.
  - intros Hit. apply apply_fn_all_skipped. intros key.
    unfold skipped. by rewrite Hit.
  - intros Hno.
    assert (Hrun : apply_fn fn selection self h
                   = apply_fn_on fn (keys self) self h).
    { unfold apply_fn, apply_fn_on.
      rewrite (apply_fn_loop_stable fn selection (fun _ => true) h).
      - by rewrite filter_all_keys.
      - intros h' Hs k. unfold skipped.
        by rewrite (list_or_tuple_items_shape _ _ _ Hs Hno).
      - apply same_shape_heap_refl. }
    split; [exact Hrun |]. rewrite Hrun.
    rewrite <- (filter_all_keys (keys self)) at 1.
    by apply (apply_fn_on_store fn (fun _ => true)).
Qed.

Lemma apply_fn_selects_fields_witness :
  apply_fn incr (VRef 0) [("a", VInt 0); ("b", VInt 0); ("c", VRef 2)]
    selection_heap
  = ([("a", VInt 0); ("b", VInt 1); ("c", VRef 2)], selection_heap)
  /\ apply_fn incr (VRef 1) [("a", VInt 0); ("b", VInt 0); ("c", VRef 2)]
       selection_heap
     = ([("a", VInt 1); ("b", VInt 1); ("c", VRef 2)],
        [OList [VStr "b"]; OOther; OList [VInt 8]]).
Proof.
  assert (Hnd : NoDup (keys [("a", VInt 0); ("b", VInt 0); ("c", VRef 2)])).
  { apply (bool_decide_unpack _). vm_compute. exact I. }
  split.
  - refine (eq_trans
              (proj1 (proj1 (proj2 (apply_fn_selects_fields incr (VRef 0)
                               [("a", VInt 0); ("b", VInt 0); ("c", VRef 2)]
                               selection_heap Hnd))
                        [VStr "b"] _)) _).
    + right. exists 0. split; [reflexivity |]. split; [reflexivity |].
      intros k v Hv. cbn [getitem] in Hv.
      repeat (destruct (String.eqb _ k);
              [injection Hv as <-; discriminate |]).
      discriminate.
    + vm_compute. reflexivity.
  - refine (eq_trans
              (proj1 (proj2 (proj2 (proj2 (apply_fn_selects_fields incr
                                             (VRef 1)
                                             [("a", VInt 0); ("b", VInt 0);
                                              ("c", VRef 2)]
                                             selection_heap Hnd))) eq_refl))
              _).
    vm_compute. reflexivity.
Defined.

(** ** Accumulation: the whole call *)

Section accumulation_call.
Implicit Types (self report : odict) (h : heap) (w : list string).






End accumulation_call.



